(** * Poisson_linear.ipynb: the notebook as a program over DOLFINx

    The repository is one Jupyter notebook.  Its code cells are straight-line
    Python: every statement binds a name of the kernel's namespace to the
    result of a call into an external library (mpi4py, DOLFINx, UFL, PETSc).
    The development below has six parts:

    - the data the notebook itself writes down (mesh subdivisions, the
      boundary function, the source term, the solver options, and the array
      recorded as the output of the last cell);
    - the interface of the external libraries, as a signature of calls whose
      implementation is a parameter;
    - the cells, as programs of a monad with the kernel's namespace, the
      library's state, a log of the calls made and Python exceptions, and
      the properties of their run that hold for every implementation of the
      libraries;
    - the finite-element library the calls go to, which is not in the
      repository: it is modelled from the pipeline the spec describes, in
      exact arithmetic;
    - the run of the notebook on that library: the array the solve returns,
      against the boundary function and against the recorded output;
    - the boundary function as a Python function over a number type whose
      operators may raise. *)

From Stdlib Require Import ZArith QArith Reals Lqa Lra Lia List String Sorted.
From stdpp Require Import gmap strings list.
Import ListNotations.

Local Open Scope Z_scope.

(** ** The boundary function

    [lambda x: 1 + x[0]**2 + 2 * x[1]**2] is passed to the library, which
    calls it on coordinates; the body is kept as an expression so that it can
    be evaluated over any number type. *)

Inductive pyexpr : Type :=
| Num (z : Z)                      (* an integer literal *)
| Coord (i : nat)                  (* x[i] *)
| Add (e1 e2 : pyexpr)             (* e1 + e2 *)
| Mul (e1 e2 : pyexpr)             (* e1 * e2 *)
| Pow (e : pyexpr) (n : nat).      (* e ** n, n a literal *)

(** The arithmetic an expression is evaluated with. *)
Record arith (T : Type) : Type := {
  of_int : Z -> T;
  plus : T -> T -> T;
  times : T -> T -> T
}.
Arguments of_int {T}.
Arguments plus {T}.
Arguments times {T}.

Fixpoint power {T : Type} (ar : arith T) (b : T) (n : nat) : T :=
  match n with
  | O => of_int ar 1
  | S n' => times ar b (power ar b n')
  end.

(** [x[i]] raises IndexError when [i] is out of range: [None]. *)
Fixpoint eval {T : Type} (ar : arith T) (x : list T) (e : pyexpr) : option T :=
  match e with
  | Num z => Some (of_int ar z)
  | Coord i => nth_error x i
  | Add e1 e2 =>
      match eval ar x e1, eval ar x e2 with
      | Some a, Some b => Some (plus ar a b)
      | _, _ => None
      end
  | Mul e1 e2 =>
      match eval ar x e1, eval ar x e2 with
      | Some a, Some b => Some (times ar a b)
      | _, _ => None
      end
  | Pow e1 n =>
      match eval ar x e1 with
      | Some a => Some (power ar a n)
      | None => None
      end
  end.

Definition Q_arith : arith Q :=
  {| of_int := inject_Z; plus := Qplus; times := Qmult |}.

Definition R_arith : arith R :=
  {| of_int := IZR; plus := Rplus; times := Rmult |}.

(** In[3]: [lambda x: 1 + x[0]**2 + 2 * x[1]**2]. *)
Definition u_D : pyexpr :=
  Add (Add (Num 1) (Pow (Coord 0) 2)) (Mul (Num 2) (Pow (Coord 1) 2)).

(** The function of two real variables the expression denotes. *)
Definition u_exact (x y : R) : R :=
  default 0%R (eval R_arith [x; y; 0%R] u_D).

(** [l] is the second derivative of [f] at [x]. *)
Definition second_derivative (f : R → R) (x l : R) : Prop :=
  ∃ f' : R → R, (∀ t, derivable_pt_lim f t (f' t)) ∧ derivable_pt_lim f' x l.

(** [l] is the Laplacian of [u] at [(x, y)]. *)
Definition laplacian_at (u : R → R → R) (x y l : R) : Prop :=
  ∃ lx ly, second_derivative (λ s, u s y) x lx
           ∧ second_derivative (λ s, u x s) y ly
           ∧ l = (lx + ly)%R.

(** ** Literals of the code cells *)

(** In[2]: [create_unit_square(MPI.COMM_WORLD, 8, 8, ...)]. *)
Definition nx : Z := 8.
Definition ny : Z := 8.

(** In[2]: [("CG", 1)]. *)
Definition element : string * Z := ("CG"%string, 1).

(** In[7]: [f_num = - 6]. *)
Definition f_num : Z := - 6.

(** In[22]: [petsc_options={"ksp_type": "preonly", "pc_type": "lu"}]. *)
Definition petsc_options : gmap string string :=
  <["pc_type"%string := "lu"%string]>
    (<["ksp_type"%string := "preonly"%string]> ∅).

(** ** The recorded output

    Out[52], the value of [uh.vector.array] as the notebook stores it. *)
Definition Out_52 : list Q := [
  1; 1.03125; 1.015625; 1.046875; 1.125; 1.140625;
  1.0625; 1.09375; 1.28125; 1.296875; 1.1875; 1.140625;
  1.171875; 1.5; 1.515625; 1.34375; 1.265625; 1.25;
  1.28125; 1.78125; 1.796875; 1.5625; 1.421875; 1.375;
  1.390625; 1.421875; 2.125; 2.140625; 1.84375; 1.640625;
  1.53125; 1.515625; 1.5625; 1.59375; 2.53125; 2.546875;
  2.1875; 1.921875; 1.75; 1.671875; 1.6875; 1.765625;
  1.796875; 3; 3.015625; 2.59375; 2.265625; 2.03125;
  1.890625; 1.84375; 1.890625; 2; 2.03125; 3.0625;
  2.671875; 2.375; 2.171875; 2.0625; 2.046875; 2.125;
  3.140625; 2.78125; 2.515625; 2.34375; 2.265625; 2.28125;
  3.25; 2.921875; 2.6875; 2.546875; 2.5; 3.390625;
  3.09375; 2.890625; 2.78125; 3.5625; 3.296875; 3.125;
  3.765625; 3.53125; 4 ]%Q.

(** The boundary function over the rationals. *)
Definition u_Q (x y : Q) : Q :=
  default 0%Q (eval Q_arith [x; y; 0%Q] u_D).

(** The vertices of the mesh of [n0] by [n1] cells over the unit square, by
    column [i] and row [j]; the vertex [(i, j)] is at [(i/n0, j/n1)], and a
    piecewise linear space has one degree of freedom at each. *)
Definition grid (n0 n1 : Z) : list (Z * Z) :=
  j ← seqZ 0 (n1 + 1); i ← seqZ 0 (n0 + 1); [(i, j)].

Definition node_value (n : Z * Z) : Q :=
  u_Q (inject_Z n.1 / inject_Z nx) (inject_Z n.2 / inject_Z ny).

(** ** The Laplacian of the boundary function *)

Lemma u_exact_eq (x y : R) : u_exact x y = (1 + x * x + 2 * (y * y))%R.
Proof. unfold u_exact. simpl. ring. Qed.

Lemma quadratic_derivative (a b c t : R) :
  derivable_pt_lim (λ s, a + b * (s * s) + c)%R t (b * (2 * t))%R.
Proof.
  apply derivable_pt_lim_ext
    with (f := (fct_cte a + mult_real_fct b Rsqr + fct_cte c)%F).
  - intros z. reflexivity.
  - replace (b * (2 * t))%R with (0 + b * (2 * t) + 0)%R by ring.
    repeat apply derivable_pt_lim_plus.
    + apply derivable_pt_lim_const.
    + apply derivable_pt_lim_scal, derivable_pt_lim_Rsqr.
    + apply derivable_pt_lim_const.
Qed.

Lemma linear_derivative (b t : R) :
  derivable_pt_lim (λ s, b * (2 * s))%R t (2 * b)%R.
Proof.
  apply derivable_pt_lim_ext with (f := mult_real_fct (b * 2)%R Datatypes.id).
  - intros z. unfold mult_real_fct, Datatypes.id. ring.
  - replace (2 * b)%R with (b * 2 * 1)%R by ring.
    apply derivable_pt_lim_scal, derivable_pt_lim_id.
Qed.

Lemma quadratic_second_derivative (a b c x : R) :
  second_derivative (λ s, a + b * (s * s) + c)%R x (2 * b)%R.
Proof.
  exists (λ t, b * (2 * t))%R. split.
  - intros t. apply quadratic_derivative.
  - apply linear_derivative.
Qed.

Lemma second_derivative_ext (f g : R → R) (x l : R) :
  (∀ t, f t = g t) → second_derivative f x l → second_derivative g x l.
Proof.
  intros Hfg (f' & Hf & Hf'). exists f'. split; [| done].
  intros t. by apply derivable_pt_lim_ext with f.
Qed.

Lemma laplacian_u_exact (x y : R) : laplacian_at u_exact x y 6%R.
Proof.
  exists 2%R, 4%R. split; [| split; [| lra]].
  - apply second_derivative_ext with (λ s, 1 + 1 * (s * s) + 2 * (y * y))%R.
    + intros t. rewrite u_exact_eq. ring.
    + pose proof (quadratic_second_derivative 1 1 (2 * (y * y)) x) as Hxx.
      by replace (2 * 1)%R with 2%R in Hxx by ring.
  - apply second_derivative_ext with (λ s, (1 + x * x) + 2 * (s * s) + 0)%R.
    + intros t. rewrite u_exact_eq. ring.
    + pose proof (quadratic_second_derivative (1 + x * x) 2 0 y) as Hyy.
      by replace (2 * 2)%R with 4%R in Hyy by ring.
Qed.

(** ** Python values, exceptions and the libraries' interface *)

Inductive result (E A : Type) : Type :=
| Ok (a : A)
| Raise (e : E).
Arguments Ok {E A}.
Arguments Raise {E A}.

(** The modules In[1] imports. *)
Inductive module : Type :=
| mpi4py_MPI | dolfinx | numpy | ufl | petsc4py_PETSc.

(** The classes of the library objects the notebook holds. *)
Inductive pyclass : Type :=
| cls_Mesh | cls_FunctionSpace | cls_Function | cls_DirichletBC
| cls_Constant | cls_LinearProblem.

Inductive comm : Type := COMM_WORLD | COMM_SELF.

Inductive CellType : Type :=
| point | interval | triangle | quadrilateral
| tetrahedron | pyramid | prism | hexahedron.

Inductive measure : Type := dx | ds | dS.

#[global] Instance module_eq_dec : EqDecision module.
Proof. solve_decision. Defined.
#[global] Instance pyclass_eq_dec : EqDecision pyclass.
Proof. solve_decision. Defined.

Section Notebook.

(** [H]: references to objects owned by the libraries; [Scalar]: their
    floating-point numbers; [E]: the exceptions they raise; [W]: their state
    (the objects behind the references, which calls may mutate). *)
Context {H Scalar E W : Type}.

(** UFL is symbolic: its functions and operators build expression trees over
    references to DOLFINx objects. *)
Inductive ufl_expr : Type :=
| TrialFunction (V : H)
| TestFunction (V : H)
| constant_value (c : H)                (* a [fe.fem.Constant] in a form *)
| coefficient (u : H)                   (* a [fe.fem.Function] in a form *)
| grad (e : ufl_expr)
| dot (e1 e2 : ufl_expr)
| product (e1 e2 : ufl_expr).

Inductive ufl_form : Type :=
| integral (integrand : ufl_expr) (m : measure).

(** The values a name of the notebook is bound to. *)
Inductive pyval : Type :=
| VModule (m : module)
| VObj (c : pyclass) (h : H)
| VInt (z : Z)
| VIndices (l : list nat)               (* a numpy array of int32 *)
| VExpr (e : ufl_expr)
| VMeasure (m : measure)
| VForm (F : ufl_form).

(** The calls the notebook makes into mpi4py, DOLFINx and PETSc, each with
    the type of what it returns. *)
Inductive call : Type -> Type :=
| import_ (m : module) : call unit
| create_unit_square (c : comm) (n0 n1 : Z) (ct : CellType) : call H
| FunctionSpace (mesh : H) (el : string * Z) : call H
| Function (V : H) : call H
| interpolate (u : H) (f : pyexpr) : call unit
| topology (mesh : H) : call H
| dim (topo : H) : call Z
| create_connectivity (topo : H) (d0 d1 : Z) : call unit
| exterior_facet_indices (topo : H) : call (list nat)
| locate_dofs_topological (V : H) (entity_dim : Z) (entities : list nat)
    : call (list nat)
| dirichletbc (value : H) (dofs : list nat) : call H
| ScalarType (z : Z) : call Scalar
| Constant (mesh : H) (c : Scalar) : call H
| LinearProblem (a L : ufl_form) (bcs : list H)
    (options : gmap string string) : call H
| solve (problem : H) : call H
| vector (u : H) : call H
| array (vec : H) : call (list Scalar).

(** An implementation of the libraries: what each call returns or raises,
    and how it changes the libraries' state. *)
Definition handler : Type := forall X : Type, call X -> W -> W * result E X.

(** The log of the calls made, with their outcomes. *)
Inductive event : Type :=
| Ev {X : Type} (c : call X) (r : result E X).

Inductive exc : Type :=
| NameError (name : string)             (* the name is not bound *)
| AttributeError (name : string)        (* the object has no such attribute *)
| TypeError (name : string)             (* the operand has the wrong type *)
| External (e : E).                     (* raised inside a library *)

Record kernel : Type := {
  ns : gmap string pyval;               (* the namespace of the kernel *)
  lib : W;                              (* the state of the libraries *)
  log : list event
}.

Definition py (A : Type) : Type := kernel -> kernel * result exc A.

Definition ret {A : Type} (a : A) : py A := fun k => (k, Ok a).

Definition bind {A B : Type} (m : py A) (f : A -> py B) : py B :=
  fun k =>
    match m k with
    | (k', Ok a) => f a k'
    | (k', Raise e) => (k', Raise e)
    end.

Definition raise {A : Type} (e : exc) : py A := fun k => (k, Raise e).

(** [try: m except: h], which the notebook never uses. *)
Definition try_except {A : Type} (m : py A) (h : exc -> py A) : py A :=
  fun k =>
    match m k with
    | (k', Ok a) => (k', Ok a)
    | (k', Raise e) => h e k'
    end.

Definition load (name : string) : py pyval :=
  fun k =>
    match ns k !! name with
    | Some v => (k, Ok v)
    | None => (k, Raise (NameError name))
    end.

Definition store (name : string) (v : pyval) : py unit :=
  fun k => ({| ns := <[name := v]> (ns k); lib := lib k; log := log k |}, Ok tt).

Variable handle : handler.

Definition extern {X : Type} (c : call X) : py X :=
  fun k =>
    let (w', r) := handle X c (lib k) in
    ({| ns := ns k; lib := w'; log := log k ++ [Ev c r] |},
     match r with
     | Ok x => Ok x
     | Raise e => Raise (External e)
     end).


#[local] Instance py_ret : MRet py := @ret.
#[local] Instance py_bind : MBind py := fun A B f m => bind m f.

(** *** Reading names *)

(** [name.attr] where [name] must be the module [m]. *)
Definition use (name : string) (m : module) : py unit :=
  v ← load name;
  match v with
  | VModule m' => if decide (m' = m) then ret tt else raise (AttributeError name)
  | _ => raise (AttributeError name)
  end.

(** A name that must hold an object of class [c]; [err] is the exception of
    the context (AttributeError for [name.method], TypeError for an
    argument). *)
Definition load_obj (err : string -> exc) (name : string) (c : pyclass) : py H :=
  v ← load name;
  match v with
  | VObj c' h => if decide (c' = c) then ret h else raise (err name)
  | _ => raise (err name)
  end.

Definition load_int (name : string) : py Z :=
  v ← load name;
  match v with
  | VInt z => ret z
  | _ => raise (TypeError name)
  end.

Definition load_indices (name : string) : py (list nat) :=
  v ← load name;
  match v with
  | VIndices l => ret l
  | _ => raise (TypeError name)
  end.

Definition load_form (name : string) : py ufl_form :=
  v ← load name;
  match v with
  | VForm F => ret F
  | _ => raise (TypeError name)
  end.

(** A name used as an operand of a UFL expression: an expression, or a
    DOLFINx constant or function. *)
Definition load_expr (name : string) : py ufl_expr :=
  v ← load name;
  match v with
  | VExpr e => ret e
  | VObj cls_Constant h => ret (constant_value h)
  | VObj cls_Function h => ret (coefficient h)
  | _ => raise (TypeError name)
  end.

(** *** The cells

    A cell evaluates to what the notebook displays under it: nothing for a
    cell that ends in an assignment, the value of the last expression
    otherwise. *)
Definition output : Type := option (list Scalar).

(** In[1]
<<
from mpi4py import MPI
import dolfinx as fe
import numpy
import ufl
from petsc4py import PETSc
>> *)
Definition In_1 : py output :=
  extern (import_ mpi4py_MPI);; store "MPI" (VModule mpi4py_MPI);;
  extern (import_ dolfinx);; store "fe" (VModule dolfinx);;
  extern (import_ numpy);; store "numpy" (VModule numpy);;
  extern (import_ ufl);; store "ufl" (VModule ufl);;
  extern (import_ petsc4py_PETSc);; store "PETSc" (VModule petsc4py_PETSc);;
  ret None.

(** In[2]
<<
solution_domain = fe.mesh.create_unit_square(MPI.COMM_WORLD, 8, 8, fe.mesh.CellType.quadrilateral)
V_function_space = fe.fem.FunctionSpace(solution_domain, ("CG", 1))
>> *)
Definition In_2 : py output :=
  use "fe" dolfinx;; use "MPI" mpi4py_MPI;; use "fe" dolfinx;;
  m ← extern (create_unit_square COMM_WORLD nx ny quadrilateral);
  store "solution_domain" (VObj cls_Mesh m);;
  use "fe" dolfinx;;
  mesh ← load_obj TypeError "solution_domain" cls_Mesh;
  V ← extern (FunctionSpace mesh element);
  store "V_function_space" (VObj cls_FunctionSpace V);;
  ret None.

(** In[3]
<<
u_boundary = fe.fem.Function(V_function_space)
u_boundary.interpolate(lambda x: 1 + x[0]**2 + 2 * x[1]**2)
>> *)
Definition In_3 : py output :=
  use "fe" dolfinx;;
  V ← load_obj TypeError "V_function_space" cls_FunctionSpace;
  g ← extern (Function V);
  store "u_boundary" (VObj cls_Function g);;
  g' ← load_obj AttributeError "u_boundary" cls_Function;
  extern (interpolate g' u_D);;
  ret None.

(** In[4]
<<
tdim = solution_domain.topology.dim
fdim = tdim - 1
solution_domain.topology.create_connectivity(fdim, tdim)
boundary_facets = fe.mesh.exterior_facet_indices(solution_domain.topology)
>> *)
Definition In_4 : py output :=
  mesh ← load_obj AttributeError "solution_domain" cls_Mesh;
  topo ← extern (topology mesh);
  d ← extern (dim topo);
  store "tdim" (VInt d);;
  tdim ← load_int "tdim";
  store "fdim" (VInt (tdim - 1));;
  mesh ← load_obj AttributeError "solution_domain" cls_Mesh;
  topo ← extern (topology mesh);
  fdim ← load_int "fdim";
  tdim ← load_int "tdim";
  extern (create_connectivity topo fdim tdim);;
  use "fe" dolfinx;;
  mesh ← load_obj AttributeError "solution_domain" cls_Mesh;
  topo ← extern (topology mesh);
  facets ← extern (exterior_facet_indices topo);
  store "boundary_facets" (VIndices facets);;
  ret None.

(** In[5]
<<
boundary_dofs = fe.fem.locate_dofs_topological(V_function_space, fdim, boundary_facets)
bc = fe.fem.dirichletbc(u_boundary, boundary_dofs)
>> *)
Definition In_5 : py output :=
  use "fe" dolfinx;;
  V ← load_obj TypeError "V_function_space" cls_FunctionSpace;
  fdim ← load_int "fdim";
  facets ← load_indices "boundary_facets";
  dofs ← extern (locate_dofs_topological V fdim facets);
  store "boundary_dofs" (VIndices dofs);;
  use "fe" dolfinx;;
  g ← load_obj TypeError "u_boundary" cls_Function;
  dofs ← load_indices "boundary_dofs";
  b ← extern (dirichletbc g dofs);
  store "bc" (VObj cls_DirichletBC b);;
  ret None.

(** In[6]
<<
u = ufl.TrialFunction(V_function_space)
v = ufl.TestFunction(V_function_space)
>> *)
Definition In_6 : py output :=
  use "ufl" ufl;;
  V ← load_obj TypeError "V_function_space" cls_FunctionSpace;
  store "u" (VExpr (TrialFunction V));;
  use "ufl" ufl;;
  V ← load_obj TypeError "V_function_space" cls_FunctionSpace;
  store "v" (VExpr (TestFunction V));;
  ret None.

(** In[7]
<<
f_num = - 6
f = fe.fem.Constant(solution_domain, PETSc.ScalarType(f_num))
>> *)
Definition In_7 : py output :=
  store "f_num" (VInt f_num);;
  use "fe" dolfinx;;
  mesh ← load_obj TypeError "solution_domain" cls_Mesh;
  use "PETSc" petsc4py_PETSc;;
  z ← load_int "f_num";
  s ← extern (ScalarType z);
  c ← extern (Constant mesh s);
  store "f" (VObj cls_Constant c);;
  ret None.

(** In[8]
<<
a = ufl.dot(ufl.grad(u), ufl.grad(v)) * ufl.dx
L = f * v * ufl.dx
>> *)
Definition In_8 : py output :=
  use "ufl" ufl;;
  use "ufl" ufl;; eu ← load_expr "u";
  use "ufl" ufl;; ev ← load_expr "v";
  use "ufl" ufl;;
  store "a" (VForm (integral (dot (grad eu) (grad ev)) dx));;
  ef ← load_expr "f";
  ev ← load_expr "v";
  use "ufl" ufl;;
  store "L" (VForm (integral (product ef ev) dx));;
  ret None.

(** In[22]
<<
problem = fe.fem.petsc.LinearProblem(a, L, bcs=[bc], petsc_options={"ksp_type": "preonly", "pc_type": "lu"})
uh = problem.solve()
>> *)
Definition In_22 : py output :=
  use "fe" dolfinx;;
  a ← load_form "a";
  L ← load_form "L";
  b ← load_obj TypeError "bc" cls_DirichletBC;
  p ← extern (LinearProblem a L [b] petsc_options);
  store "problem" (VObj cls_LinearProblem p);;
  p' ← load_obj AttributeError "problem" cls_LinearProblem;
  sol ← extern (solve p');
  store "uh" (VObj cls_Function sol);;
  ret None.

(** In[52]
<<
uh.vector.array
>> *)
Definition In_52 : py output :=
  sol ← load_obj AttributeError "uh" cls_Function;
  vec ← extern (vector sol);
  arr ← extern (array vec);
  ret (Some arr).

(** The last cell of the notebook is empty and was never run. *)
Definition In_empty : py output := ret None.

(** A code cell: the execution count the notebook records for it and its
    source. *)
Record cell : Type := {
  execution_count : option nat;
  source : py output
}.

Definition notebook : list cell := [
  {| execution_count := Some 1%nat; source := In_1 |};
  {| execution_count := Some 2%nat; source := In_2 |};
  {| execution_count := Some 3%nat; source := In_3 |};
  {| execution_count := Some 4%nat; source := In_4 |};
  {| execution_count := Some 5%nat; source := In_5 |};
  {| execution_count := Some 6%nat; source := In_6 |};
  {| execution_count := Some 7%nat; source := In_7 |};
  {| execution_count := Some 8%nat; source := In_8 |};
  {| execution_count := Some 22%nat; source := In_22 |};
  {| execution_count := Some 52%nat; source := In_52 |};
  {| execution_count := None; source := In_empty |}
].

(** Running cells one after the other; the first exception stops the run.
    The result is the last output displayed. *)
Fixpoint run_cells (cells : list cell) (last : output) : py output :=
  match cells with
  | [] => ret last
  | c :: cells' =>
      o ← source c;
      run_cells cells' (match o with Some _ => o | None => last end)
  end.

Definition run_all : py output := run_cells notebook None.

(** What a Dirichlet condition built from the values [x] of a function and
    the indices [dofs] prescribes: the value of the function at each of the
    indices. *)
Definition constraints (x : list Scalar) (dofs : list nat) : list (nat * Scalar) :=
  omap (λ d, (λ v, (d, v)) <$> x !! d) dofs.

(** A kernel just started: nothing is bound, no call was made. *)
Definition fresh (w : W) : kernel := {| ns := ∅; lib := w; log := [] |}.

(** The Python name of a call. *)
Definition call_name {X : Type} (c : call X) : string :=
  match c with
  | import_ _ => "import"
  | create_unit_square _ _ _ _ => "create_unit_square"
  | FunctionSpace _ _ => "FunctionSpace"
  | Function _ => "Function"
  | interpolate _ _ => "interpolate"
  | topology _ => "topology"
  | dim _ => "dim"
  | create_connectivity _ _ _ => "create_connectivity"
  | exterior_facet_indices _ => "exterior_facet_indices"
  | locate_dofs_topological _ _ _ => "locate_dofs_topological"
  | dirichletbc _ _ => "dirichletbc"
  | ScalarType _ => "ScalarType"
  | Constant _ _ => "Constant"
  | LinearProblem _ _ _ _ => "LinearProblem"
  | solve _ => "solve"
  | vector _ => "vector"
  | array _ => "array"
  end.

Definition event_name (ev : event) : string :=
  match ev with Ev c _ => call_name c end.

Definition schedule : list string := [
  "import"; "import"; "import"; "import"; "import";
  "create_unit_square"; "FunctionSpace";
  "Function"; "interpolate";
  "topology"; "dim"; "topology"; "create_connectivity";
  "topology"; "exterior_facet_indices";
  "locate_dofs_topological"; "dirichletbc";
  "ScalarType"; "Constant";
  "LinearProblem"; "solve";
  "vector"; "array" ].

(** The state after the whole notebook was run in a kernel just started on
    a machine in state [w], and how the run ended. *)
Definition final (w : W) : kernel := (run_all (fresh w)).1.
Definition outcome (w : W) : result exc output := (run_all (fresh w)).2.

(** What an event says. *)
Definition event_raised (ev : event) : option E :=
  match ev with
  | Ev _ (Raise e) => Some e
  | Ev _ (Ok _) => None
  end.

Definition quiet (ev : event) : Prop := event_raised ev = None.

Definition event_options (ev : event) : option (gmap string string) :=
  match ev with
  | Ev (LinearProblem _ _ _ o) _ => Some o
  | _ => None
  end.

Definition event_linear_form (ev : event) : option ufl_form :=
  match ev with
  | Ev (LinearProblem _ L _ _) _ => Some L
  | _ => None
  end.

Definition event_conditions (ev : event) : option (list H) :=
  match ev with
  | Ev (LinearProblem _ _ bcs _) _ => Some bcs
  | _ => None
  end.

Definition event_solved (ev : event) : option H :=
  match ev with
  | Ev (solve p) _ => Some p
  | _ => None
  end.

Definition event_dirichletbc (ev : event) : option (H * list nat) :=
  match ev with
  | Ev (dirichletbc g dofs) _ => Some (g, dofs)
  | _ => None
  end.

(** [new] ends with a call that raised [e]; every call before it returned. *)
Definition raised_last (new : list event) (e : E) : Prop :=
  ∃ l ev, new = l ++ [ev] ∧ event_raised ev = Some e ∧ Forall quiet l.

(** A program lets the exceptions of the libraries through: started in any
    kernel, if a call raises, the program stops there and raises the same
    exception; otherwise no call raised. *)
Definition propagates {A : Type} (m : py A) : Prop :=
  ∀ k, ∃ new, log (m k).1 = log k ++ new ∧
    match (m k).2 with
    | Ok _ => Forall quiet new
    | Raise (External e) => raised_last new e
    | Raise _ => Forall quiet new
    end.

(** In [l], every occurrence of [b] comes after an occurrence of [a]. *)
Definition precedes (a b : string) (l : list string) : Prop :=
  ∀ i, l !! i = Some b → ∃ j, (j < i)%nat ∧ l !! j = Some a.

(** ** Weakest preconditions for the cells *)

Definition wp {A : Type} (m : py A) (Φ : kernel → result exc A → Prop)
    (k : kernel) : Prop :=
  Φ (m k).1 (m k).2.

Lemma wp_ret {A : Type} (a : A) Φ k : Φ k (Ok a) → wp (mret a) Φ k.
Proof. intros HΦ. exact HΦ. Qed.

Lemma wp_raise {A : Type} (e : exc) (Φ : kernel → result exc A → Prop) k :
  Φ k (Raise e) → wp (raise e) Φ k.
Proof. intros HΦ. exact HΦ. Qed.

Lemma wp_bind {A B : Type} (m : py A) (f : A → py B) Φ k :
  wp m (λ k' r, match r with
                | Ok a => wp (f a) Φ k'
                | Raise e => Φ k' (Raise e)
                end) k →
  wp (m ≫= f) Φ k.
Proof.
  unfold wp, mbind, py_bind, bind. destruct (m k) as [k' [a|e]]; simpl; auto.
Qed.

Lemma wp_load (name : string) Φ k :
  match ns k !! name with
  | Some v => Φ k (Ok v)
  | None => Φ k (Raise (NameError name))
  end →
  wp (load name) Φ k.
Proof. unfold wp, load. destruct (ns k !! name); simpl; auto. Qed.

Lemma wp_store (name : string) (v : pyval) Φ k :
  Φ {| ns := <[name := v]> (ns k); lib := lib k; log := log k |} (Ok tt) →
  wp (store name v) Φ k.
Proof. intros HΦ. exact HΦ. Qed.

Lemma wp_extern {X : Type} (c : call X) Φ k :
  (∀ w' r, handle X c (lib k) = (w', r) →
     Φ {| ns := ns k; lib := w'; log := log k ++ [Ev c r] |}
       (match r with Ok x => Ok x | Raise e => Raise (External e) end)) →
  wp (extern c) Φ k.
Proof.
  unfold wp, extern. intros HΦ. destruct (handle X c (lib k)) as [w' r] eqn:Hc.
  simpl. by apply HΦ.
Qed.

(** ** Exceptions *)

Lemma propagates_ret {A : Type} (a : A) : propagates (mret a).
Proof. intros k. exists []. split; [by rewrite app_nil_r | constructor]. Qed.

Lemma propagates_raise {A : Type} (x : exc) :
  (∀ e, x ≠ External e) → propagates (raise (A:=A) x).
Proof.
  intros Hx k. exists []. split; [by rewrite app_nil_r |].
  simpl. destruct x; try constructor. by destruct (Hx e).
Qed.

Lemma propagates_load (name : string) : propagates (load name).
Proof.
  intros k. exists []. unfold load. split.
  - destruct (ns k !! name); simpl; by rewrite app_nil_r.
  - destruct (ns k !! name); simpl; constructor.
Qed.

Lemma propagates_store (name : string) (v : pyval) : propagates (store name v).
Proof. intros k. exists []. split; [by rewrite app_nil_r | constructor]. Qed.

Lemma propagates_extern {X : Type} (c : call X) : propagates (extern c).
Proof.
  intros k. unfold extern. destruct (handle X c (lib k)) as [w' [x|e]]; simpl.
  - exists [Ev c (Ok x)]. split; [done |]. by repeat constructor.
  - exists [Ev c (Raise e)]. split; [done |].
    exists [], (Ev c (Raise e)). by repeat split.
Qed.

Lemma propagates_bind {A B : Type} (m : py A) (f : A → py B) :
  propagates m → (∀ a, propagates (f a)) → propagates (m ≫= f).
Proof.
  intros Hm Hf k. unfold mbind, py_bind, bind.
  destruct (Hm k) as (new & Hlog & Hres).
  destruct (m k) as [k' [a|x]]; simpl in *.
  - destruct (Hf a k') as (new' & Hlog' & Hres').
    exists (new ++ new'). split; [by rewrite Hlog', Hlog, app_assoc |].
    destruct ((f a k').2) as [b|[| | |e]]; try by apply Forall_app.
    destruct Hres' as (l & ev & -> & Hev & Hl).
    exists (new ++ l), ev. rewrite app_assoc. repeat split; [done |].
    by apply Forall_app.
  - by exists new.
Qed.

Ltac propagate :=
  repeat first
    [ apply propagates_ret
    | apply propagates_load
    | apply propagates_store
    | apply propagates_extern
    | apply propagates_raise; discriminate
    | apply propagates_bind; [| intros ?]
    | match goal with
      | |- propagates (match ?v with _ => _ end) => destruct v
      end ].

Lemma use_propagates (name : string) (m : module) : propagates (use name m).
Proof. unfold use. propagate. Qed.

Lemma load_obj_propagates (err : string → exc) (name : string) (c : pyclass) :
  (∀ n e, err n ≠ External e) → propagates (load_obj err name c).
Proof.
  intros Herr. unfold load_obj. propagate; apply propagates_raise, Herr.
Qed.

Lemma load_int_propagates (name : string) : propagates (load_int name).
Proof. unfold load_int. propagate. Qed.

Lemma load_indices_propagates (name : string) : propagates (load_indices name).
Proof. unfold load_indices. propagate. Qed.

Lemma load_form_propagates (name : string) : propagates (load_form name).
Proof. unfold load_form. propagate. Qed.

Lemma load_expr_propagates (name : string) : propagates (load_expr name).
Proof. unfold load_expr. propagate. Qed.

Create HintDb cells.

#[local] Hint Resolve use_propagates load_int_propagates load_indices_propagates
  load_form_propagates load_expr_propagates propagates_ret propagates_store
  propagates_extern : cells.

Ltac propagate_cell :=
  repeat first
    [ solve [auto with cells]
    | apply load_obj_propagates; discriminate
    | apply propagates_bind; [| intros ?] ].

Lemma cells_propagate : Forall (λ c, propagates (source c)) notebook.
Proof.
  unfold notebook. repeat apply Forall_cons_2; try apply Forall_nil_2; simpl.
  - unfold In_1. propagate_cell.
  - unfold In_2. propagate_cell.
  - unfold In_3. propagate_cell.
  - unfold In_4. propagate_cell.
  - unfold In_5. propagate_cell.
  - unfold In_6. propagate_cell.
  - unfold In_7. propagate_cell.
  - unfold In_8. propagate_cell.
  - unfold In_22. propagate_cell.
  - unfold In_52. propagate_cell.
  - unfold In_empty. propagate_cell.
Qed.

Lemma run_cells_propagates (cells : list cell) (last : output) :
  Forall (λ c, propagates (source c)) cells → propagates (run_cells cells last).
Proof.
  intros Hcells. revert last.
  induction Hcells as [| c cells Hc _ IH]; intros last; simpl.
  - apply propagates_ret.
  - apply propagates_bind; [done |]. intros o. apply IH.
Qed.

(** ** Running the notebook symbolically *)

Lemma wp_run_all (Φ : kernel → result exc output → Prop) (w : W) :
  wp run_all Φ (fresh w) → Φ (final w) (outcome w).
Proof. intros HΦ. exact HΦ. Qed.

Ltac wp_step :=
  lazymatch goal with
  | |- wp (_ ≫= _) _ _ => apply wp_bind
  | |- wp (mret _) _ _ => apply wp_ret
  | |- wp (ret _) _ _ => apply wp_ret
  | |- wp (raise _) _ _ => apply wp_raise
  | |- wp (store _ (VInt (?a - ?b))) _ _ =>
      let z := fresh "fdim" in
      remember (a - b) as z; apply wp_store
  | |- wp (store _ _) _ _ => apply wp_store
  | |- wp (load _) _ _ =>
      apply wp_load; cbn [ns lib log];
      lazymatch goal with
      | |- context [@lookup _ _ _ _ ?name ?m] =>
          let r := eval vm_compute in (m !! name) in
          change (m !! name) with r
      end; cbv beta iota
  | |- wp (extern _) _ _ =>
      apply wp_extern; cbn [ns lib log]; intros ? [?|?] _; cbv beta iota
  | |- context [decide (?a = ?b)] =>
      let r := eval vm_compute in (decide (a = b)) in
      change (decide (a = b)) with r; cbv beta iota
  end.

(** Reduces a goal on [final w] and [outcome w] to one goal for each way the
    run can end: a call raised, or every call returned. *)
Ltac run_notebook w :=
  pattern (final w), (outcome w); apply wp_run_all;
  unfold run_all, notebook, fresh; cbn [run_cells source];
  unfold In_1, In_2, In_3, In_4, In_5, In_6, In_7, In_8, In_22, In_52, In_empty,
    use, load_obj, load_int, load_indices, load_form, load_expr;
  repeat wp_step;
  cbv beta; cbn [ns lib log app].

Lemma take_precedes (a b : string) (n i j : nat) (l : list string) :
  (∀ i', l !! i' = Some b → i' = i) →
  l !! j = Some a → (j < i)%nat →
  precedes a b (take n l).
Proof.
  intros Hb Ha Hji i' Hi'. apply lookup_take_Some in Hi' as [Hi' Hn].
  apply Hb in Hi' as ->. exists j. split; [done |].
  rewrite lookup_take_lt; [done | lia].
Qed.

Lemma schedule_solve (i : nat) : schedule !! i = Some "solve" → i = 20%nat.
Proof.
  intros Hi. assert (i < length schedule)%nat as Hlt by by eapply lookup_lt_Some.
  simpl in Hlt. do 23 (destruct i as [| i]; [by simplify_eq |]). lia.
Qed.

Lemma schedule_array (i : nat) : schedule !! i = Some "array" → i = 22%nat.
Proof.
  intros Hi. assert (i < length schedule)%nat as Hlt by by eapply lookup_lt_Some.
  simpl in Hlt. do 23 (destruct i as [| i]; [by simplify_eq |]). lia.
Qed.

Lemma log_follows_schedule (w : W) :
  event_name <$> log (final w)
    = take (length (log (final w))) schedule
  ∧ (∀ o, outcome w = Ok o →
       event_name <$> log (final w) = schedule ∧ ∃ arr, o = Some arr).
Proof.
  run_notebook w.
  all: split; [reflexivity | intros o Ho; try discriminate Ho].
  split; [reflexivity |]. injection Ho as <-. by eexists.
Qed.

(** In any kernel, the cell of the solve raises NameError before it calls
    anything unless the forms and the boundary condition are bound. *)
Lemma In_22_needs (k : kernel) :
  ns k !! "a" = None ∨ ns k !! "L" = None ∨ ns k !! "bc" = None →
  ∃ x, In_22 k = (k, Raise x).
Proof.
  intros Hmissing.
  unfold In_22, use, load_form, load_obj, load, mbind, py_bind, bind, mret,
    py_ret, ret, raise.
  destruct (ns k !! "fe") as [[m| | | | | |]|]; try by eexists.
  destruct (decide (m = dolfinx)); [| by eexists].
  destruct (ns k !! "a") as [[| | | | | |Fa]|]; try by eexists.
  destruct (ns k !! "L") as [[| | | | | |FL]|]; try by eexists.
  destruct (ns k !! "bc") as [[|c b| | | | |]|]; try by eexists.
  destruct Hmissing as [?|[?|?]]; discriminate.
Qed.

Lemma raises_only_external (w : W) (x : exc) :
  outcome w = Raise x → ∃ e, x = External e.
Proof.
  revert x. run_notebook w.
  all: intros x Hx; try discriminate Hx; injection Hx as <-; by eexists.
Qed.

(** When the run ends normally, what it displays is the array returned by
    the last call, [uh.vector.array]. *)
Lemma output_read_last (w : W) (o : output) :
  outcome w = Ok o →
  ∃ vec arr, o = Some arr ∧ last (log (final w)) = Some (Ev (array vec) (Ok arr)).
Proof.
  revert o. run_notebook w.
  all: intros o Ho; try discriminate Ho; injection Ho as <-.
  by eexists _, _.
Qed.

Lemma run_all_propagates : propagates run_all.
Proof. apply run_cells_propagates, cells_propagate. Qed.

(** ** Properties of the run *)

(** C7: the notebook handles no error itself.  Whatever the libraries do and
    in whatever kernel it is started, when one of their calls raises, the run
    stops at that call and ends with the very exception raised, and when the
    run ends normally no call raised; started in a new kernel, the run ends
    with no exception other than one raised by a call (no NameError,
    AttributeError or TypeError, and none made by the notebook). *)
Theorem errors_propagate_unchanged (w : W) :
  propagates run_all
  ∧ (∀ x, outcome w = Raise x →
       ∃ e, x = External e ∧ raised_last (log (final w)) e)
  ∧ (∀ ev e, ev ∈ log (final w) → event_raised ev = Some e →
       outcome w = Raise (External e) ∧ ∃ l, log (final w) = l ++ [ev]).
Proof.
  pose proof (run_all_propagates (fresh w)) as (new & Hlog & Hres).
  change (log (final w) = [] ++ new) in Hlog. simpl in Hlog.
  change (match outcome w with
          | Ok _ => Forall quiet new
          | Raise (External e) => raised_last new e
          | Raise _ => Forall quiet new
          end) in Hres.
  rewrite Hlog. split; [apply run_all_propagates |]. split.
  - intros x Hx. destruct (raises_only_external w x Hx) as [e ->].
    exists e. split; [done |]. by rewrite Hx in Hres.
  - intros ev e Hev Hraised.
    assert (¬ Forall quiet new) as Hloud.
    { intros Hquiet. rewrite Forall_forall in Hquiet.
      specialize (Hquiet ev Hev). unfold quiet in Hquiet. congruence. }
    destruct (outcome w) as [o|x] eqn:Hout; [done |].
    destruct (raises_only_external w x Hout) as [e' ->].
    destruct Hres as (l & ev' & -> & Hev' & Hl).
    apply elem_of_app in Hev as [Hev|Hev].
    + rewrite Forall_forall in Hl. specialize (Hl ev Hev).
      unfold quiet in Hl. congruence.
    + apply list_elem_of_singleton in Hev as ->.
      split; [congruence | by exists l].
Qed.


(** What is left of a goal on every event of the log, once the log is
    known: one goal for each event. *)
Ltac each_event :=
  repeat match goal with u : unit |- _ => destruct u end;
  repeat apply Forall_cons_2; try apply Forall_nil_2; simpl;
  intros; simplify_eq.

Ltac at_index i := apply list_elem_of_lookup_2 with i; reflexivity.

(** C6: the linear system is handed to a direct LU factorisation.  The
    options of the notebook are exactly [ksp_type = preonly] (no Krylov
    iteration) and [pc_type = lu]; whatever the libraries do, every linear
    problem the run makes is made with these options, and every solve of the
    run is the solve of a problem made with them. *)
Theorem solver_is_direct_lu (w : W) :
  petsc_options !! "ksp_type" = Some "preonly"
  ∧ petsc_options !! "pc_type" = Some "lu"
  ∧ dom petsc_options = ({["ksp_type"; "pc_type"]} : gset string)
  ∧ Forall (λ ev, ∀ o, event_options ev = Some o → o = petsc_options)
      (log (final w))
  ∧ Forall (λ ev, ∀ p, event_solved ev = Some p →
              ∃ a L bcs,
                Ev (LinearProblem a L bcs petsc_options) (Ok p) ∈ log (final w))
      (log (final w)).
Proof.
  split; [by vm_compute |]. split; [by vm_compute |].
  split; [by vm_compute |].
  run_notebook w.
  all: split; each_event; try done.
  all: eexists _, _, _; at_index 19%nat.
Qed.

(** C5: the source term of the linear form is the constant [f = -6], which
    is minus the Laplacian of the boundary function.  [f_num] is [-6];
    whatever the libraries do, the linear form of every linear problem the
    run makes is [f * v * dx] with [v] a test function and [f] the constant
    made from [f_num]; and at every point the Laplacian of
    [1 + x^2 + 2 y^2] is [6 = - f_num]. *)
Theorem source_term_is_minus_laplacian (w : W) :
  f_num = - 6
  ∧ Forall (λ ev, ∀ L, event_linear_form ev = Some L →
              ∃ c V mesh s,
                L = integral (product (constant_value c) (TestFunction V)) dx
                ∧ Ev (Constant mesh s) (Ok c) ∈ log (final w)
                ∧ Ev (ScalarType f_num) (Ok s) ∈ log (final w))
      (log (final w))
  ∧ (∀ x y : R, u_exact x y = (1 + x * x + 2 * (y * y))%R
                ∧ laplacian_at u_exact x y (- IZR f_num)%R).
Proof.
  split; [done |]. split.
  - run_notebook w.
    all: each_event.
    all: eexists _, _, _, _; split; [done |]; split; [at_index 18%nat | at_index 17%nat].
  - intros x y. split; [apply u_exact_eq |].
    replace (- IZR f_num)%R with 6%R by (unfold f_num; simpl; lra).
    apply laplacian_u_exact.
Qed.

Lemma constraints_elem (x : list Scalar) (dofs : list nat) (d : nat) (v : Scalar) :
  (d, v) ∈ constraints x dofs ↔ d ∈ dofs ∧ x !! d = Some v.
Proof.
  unfold constraints. rewrite list_elem_of_omap. split.
  - intros (d' & Hd' & Hv). destruct (x !! d') as [v'|] eqn:Hx; simplify_eq/=.
    done.
  - intros [Hd Hv]. exists d. split; [done |]. by rewrite Hv.
Qed.

Lemma constraints_frame (x x' : list Scalar) (dofs : list nat) :
  (∀ d, d ∈ dofs → x !! d = x' !! d) →
  constraints x dofs = constraints x' dofs.
Proof.
  intros Hagree. unfold constraints. apply list_omap_ext.
  induction dofs as [| d dofs IH]; constructor.
  - rewrite (Hagree d); [done | left].
  - apply IH. intros d' Hd'. apply Hagree. by right.
Qed.

(** C10: the boundary function is interpolated on the whole function, the
    condition is put on the exterior degrees of freedom only.  Whatever the
    libraries do, every boundary condition the run makes is made from the
    function interpolated from [u_D] (a call that names no degree of
    freedom) and from the degrees of freedom located on the facets of
    dimension [tdim - 1] that [exterior_facet_indices] returned, and every
    linear problem is made with one such condition; what a condition on the
    indices [dofs] prescribes are values at indices of [dofs] only, so two
    functions that agree there prescribe the same. *)
Theorem boundary_condition_frame (w : W) :
  Forall (λ ev, ∀ g dofs, event_dirichletbc ev = Some (g, dofs) →
            ∃ V topo topo' tdim facets,
              Ev (interpolate g u_D) (Ok tt) ∈ log (final w)
              ∧ Ev (dim topo') (Ok tdim) ∈ log (final w)
              ∧ Ev (exterior_facet_indices topo) (Ok facets) ∈ log (final w)
              ∧ Ev (locate_dofs_topological V (tdim - 1) facets) (Ok dofs)
                  ∈ log (final w))
    (log (final w))
  ∧ Forall (λ ev, ∀ bcs, event_conditions ev = Some bcs →
              ∃ g dofs b, bcs = [b]
                ∧ Ev (dirichletbc g dofs) (Ok b) ∈ log (final w))
      (log (final w))
  ∧ (∀ (x : list Scalar) dofs d v,
       (d, v) ∈ constraints x dofs ↔ d ∈ dofs ∧ x !! d = Some v)
  ∧ (∀ (x x' : list Scalar) dofs,
       (∀ d, d ∈ dofs → x !! d = x' !! d) →
       constraints x dofs = constraints x' dofs).
Proof.
  split; [| split; [| split; [apply constraints_elem | apply constraints_frame]]].
  - run_notebook w.
    all: each_event.
    all: eexists _, _, _, _, _;
      split; [at_index 8%nat |]; split; [at_index 10%nat |];
      split; [at_index 14%nat | at_index 15%nat].
  - run_notebook w.
    all: each_event.
    all: eexists _, _, _; split; [done | at_index 16%nat].
Qed.

(** * Further properties of the cells *)

(** ** What a cell binds

    A program writes only the names of [S]: whatever it does, every other
    name is bound after it as it was before. *)
Definition writes_only {A : Type} (S : list string) (m : py A) : Prop :=
  ∀ k name, name ∉ S → ns (m k).1 !! name = ns k !! name.

(** The targets of the assignments of the nine cells that end in an
    assignment, In[1] to In[22], in the order of [notebook].  The cell
    In[52] ends in an expression: IPython displays its value and records it
    under names of its own ([_], [_52], [Out]), which are not modelled, so
    nothing is said here of what that cell binds. *)
Definition targets : list (list string) := [
  ["MPI"; "fe"; "numpy"; "ufl"; "PETSc"];
  ["solution_domain"; "V_function_space"];
  ["u_boundary"];
  ["tdim"; "fdim"; "boundary_facets"];
  ["boundary_dofs"; "bc"];
  ["u"; "v"];
  ["f_num"; "f"];
  ["a"; "L"];
  ["problem"; "uh"] ].

Lemma writes_only_ret {A : Type} (S : list string) (a : A) :
  writes_only S (mret a).
Proof. by intros k name _. Qed.

Lemma writes_only_raise {A : Type} (S : list string) (x : exc) :
  writes_only S (raise (A:=A) x).
Proof. by intros k name _. Qed.

Lemma writes_only_load (S : list string) (name : string) :
  writes_only S (load name).
Proof. intros k n _. unfold load. by destruct (ns k !! name). Qed.

Lemma writes_only_store (S : list string) (name : string) (v : pyval) :
  name ∈ S → writes_only S (store name v).
Proof.
  intros Hin k n Hn. simpl. apply lookup_insert_ne. by intros ->.
Qed.

Lemma writes_only_extern {X : Type} (S : list string) (c : call X) :
  writes_only S (extern c).
Proof.
  intros k n _. unfold extern. by destruct (handle X c (lib k)) as [w' r].
Qed.

Lemma writes_only_bind {A B : Type} (S : list string) (m : py A) (f : A → py B) :
  writes_only S m → (∀ a, writes_only S (f a)) → writes_only S (m ≫= f).
Proof.
  intros Hm Hf k n Hn. unfold mbind, py_bind, bind.
  specialize (Hm k n Hn). destruct (m k) as [k' [a|x]]; simpl in *; [| done].
  by rewrite (Hf a k' n Hn).
Qed.

Ltac writes :=
  repeat first
    [ apply writes_only_ret
    | apply writes_only_raise
    | apply writes_only_load
    | apply writes_only_extern
    | apply writes_only_store; rewrite !elem_of_cons; tauto
    | apply writes_only_bind; [| intros ?]
    | match goal with
      | |- writes_only _ (match ?v with _ => _ end) => destruct v
      end ].

Lemma cells_write_targets :
  Forall2 (λ c S, writes_only S (source c)) (take 9 notebook) targets.
Proof.
  unfold notebook, targets. simpl.
  repeat apply Forall2_cons_2; try apply Forall2_nil_2; simpl.
  all: unfold In_1, In_2, In_3, In_4, In_5, In_6, In_7, In_8, In_22, In_52,
         In_empty, use, load_obj, load_int, load_indices, load_form, load_expr.
  all: writes.
Qed.

(** X1: a cell that ends in an assignment rebinds no name but the targets
    of its own assignments.  For each of the nine cells In[1] to In[22], in
    any kernel and whatever the libraries do, also when the cell fails, the
    code of the cell leaves every other name bound as it was; and no name is
    the target of two cells. *)
Theorem cells_bind_only_their_targets :
  Forall2 (λ c S, writes_only S (source c)) (take 9 notebook) targets
  ∧ NoDup (concat targets).
Proof.
  split; [apply cells_write_targets |].
  apply (bool_decide_unpack _). by vm_compute.
Qed.

(** ** What a run binds *)

(** X2: the names the notebook defines.  Whatever the libraries do, when the
    run in a new kernel ends normally each of the 21 targets of the
    assignments is bound; in particular [f_num] is bound to the integer -6,
    [fdim] to the integer bound to [tdim] less one, [tdim] being what [dim]
    returned, [problem] to the linear problem made and [uh] to what its
    solve returned. *)
Theorem names_bound_by_run (w : W) :
  (∀ o, outcome w = Ok o →
     (∀ name, name ∈ concat targets → is_Some (ns (final w) !! name))
     ∧ ns (final w) !! "f_num" = Some (VInt (- 6))
     ∧ (∃ topo d,
          Ev (dim topo) (Ok d) ∈ log (final w)
          ∧ ns (final w) !! "tdim" = Some (VInt d)
          ∧ ns (final w) !! "fdim" = Some (VInt (d - 1)))
     ∧ (∃ p sol,
          Ev (solve p) (Ok sol) ∈ log (final w)
          ∧ ns (final w) !! "problem" = Some (VObj cls_LinearProblem p)
          ∧ ns (final w) !! "uh" = Some (VObj cls_Function sol)))
  ∧ length (concat targets) = 21%nat.
Proof.
  split; [| reflexivity].
  run_notebook w.
  all: intros o Ho; try discriminate Ho.
  split; [| split; [| split]].
  - intros name Hname. simpl in Hname.
    repeat (apply elem_of_cons in Hname as [-> | Hname];
            [vm_compute; by eexists |]).
    by apply elem_of_nil in Hname.
  - by vm_compute.
  - subst. eexists _, _. split; [at_index 10%nat |]. split; by vm_compute.
  - eexists _, _. split; [at_index 20%nat |]. split; by vm_compute.
Qed.

(** ** Cells run out of order *)

(** The names each cell reads before its first call into DOLFINx or PETSc,
    in the order of [notebook].  In[1] reads no name.  In[6] and In[8] call
    UFL only, and Python makes some of these calls before it reads the later
    names ([ufl.grad(u)] before [v] is read); the calls of UFL are not
    among the calls logged, so for these two cells no name is listed and
    nothing is stated. *)
Definition early_reads : list (list string) := [
  [];
  ["fe"; "MPI"];
  ["fe"; "V_function_space"];
  ["solution_domain"];
  ["fe"; "V_function_space"; "fdim"; "boundary_facets"];
  [];
  ["fe"; "solution_domain"; "PETSc"];
  [];
  ["fe"; "a"; "L"; "bc"];
  ["uh"];
  [] ].

(** The program raises an exception of Python itself and calls nothing. *)
Definition stops_before_calling {A : Type} (m : py A) (k : kernel) : Prop :=
  (∃ x, (m k).2 = Raise x ∧ ∀ e, x ≠ External e)
  ∧ log (m k).1 = log k ∧ lib (m k).1 = lib k.

Ltac wp_any :=
  lazymatch goal with
  | |- wp (_ ≫= _) _ _ => apply wp_bind
  | |- wp (mret _) _ _ => apply wp_ret
  | |- wp (ret _) _ _ => apply wp_ret
  | |- wp (raise _) _ _ => apply wp_raise
  | |- wp (store _ _) _ _ => apply wp_store
  | |- wp (load ?n) _ _ =>
      apply wp_load; cbn [ns lib log];
      rewrite ?lookup_insert_eq, ?lookup_insert_ne by done;
      lazymatch goal with
      | |- match Some _ with Some _ => _ | None => _ end => cbv beta iota
      | |- match ?o with Some _ => _ | None => _ end =>
          let Hn := fresh "Hn" in
          destruct o as [[]|] eqn:Hn; try congruence
      | |- _ => idtac
      end
  | |- wp (if decide ?P then _ else _) _ _ => destruct (decide P)
  | |- wp (match ?v with _ => _ end) _ _ => destruct v
  end.

(** Every way a cell ends before its first call. *)
Ltac stops :=
  repeat wp_any;
  lazymatch goal with
  | |- wp (extern _) _ _ => exfalso; congruence
  | |- _ => split; [eexists; split; [reflexivity | discriminate] | by split]
  end.

(** X3: a cell that calls DOLFINx or PETSc (In[2] to In[5], In[7], In[22],
    In[52]), run before the cells that bind the names it reads, stops with an
    exception of Python and calls nothing.  In any kernel and whatever the
    libraries do, if one of the names such a cell reads before its first
    call is unbound, the cell raises (a NameError, or an AttributeError or
    TypeError from a name read before it) and neither makes a call nor
    changes the state of the libraries. *)
Theorem cells_stop_without_names :
  Forall2 (λ c R, ∀ k n, n ∈ R → ns k !! n = None →
                    stops_before_calling (source c) k)
    notebook early_reads.
Proof.
  unfold notebook, early_reads.
  repeat apply Forall2_cons_2; try apply Forall2_nil_2; simpl.
  all: intros k n Hn Hnone.
  all: repeat (apply elem_of_cons in Hn as [-> | Hn]);
         try by apply elem_of_nil in Hn.
  all: unfold stops_before_calling.
  all: lazymatch goal with
       | |- _ ∧ log (?m ?k0).1 = _ ∧ _ =>
           change (wp m (λ k' r, (∃ x, r = Raise x ∧ ∀ e, x ≠ External e)
                                 ∧ log k' = log k0 ∧ lib k' = lib k0) k0)
       end.
  all: unfold In_1, In_2, In_3, In_4, In_5, In_6, In_7, In_8, In_22, In_52,
         In_empty, use, load_obj, load_int, load_indices, load_form, load_expr.
  all: stops.
Qed.

(** ** A name no cell reads *)

Definition with_name (n : string) (v : pyval) (k : kernel) : kernel :=
  {| ns := <[n := v]> (ns k); lib := lib k; log := log k |}.

(** The program does the same whatever [n] is bound to, and leaves it
    bound to that. *)
Definition ignores {A : Type} (n : string) (m : py A) : Prop :=
  ∀ k v, m (with_name n v k) = (with_name n v (m k).1, (m k).2).

Lemma ignores_ret {A : Type} (n : string) (a : A) : ignores n (mret a).
Proof. by intros k v. Qed.

Lemma ignores_raise {A : Type} (n : string) (x : exc) :
  ignores n (raise (A:=A) x).
Proof. by intros k v. Qed.

Lemma ignores_load (n name : string) : name ≠ n → ignores n (load name).
Proof.
  intros Hne k v. unfold load. simpl. rewrite lookup_insert_ne by done.
  by destruct (ns k !! name).
Qed.

Lemma ignores_store (n name : string) (v' : pyval) :
  name ≠ n → ignores n (store name v').
Proof.
  intros Hne k v. unfold store, with_name. simpl.
  by rewrite insert_insert_ne.
Qed.

Lemma ignores_extern {X : Type} (n : string) (c : call X) :
  ignores n (extern c).
Proof.
  intros k v. unfold extern. simpl.
  by destruct (handle X c (lib k)) as [w' r].
Qed.

Lemma ignores_bind {A B : Type} (n : string) (m : py A) (f : A → py B) :
  ignores n m → (∀ a, ignores n (f a)) → ignores n (m ≫= f).
Proof.
  intros Hm Hf k v. unfold mbind, py_bind, bind. rewrite Hm.
  destruct (m k) as [k' [a|x]]; simpl; [apply Hf | done].
Qed.

Ltac ignore :=
  repeat first
    [ apply ignores_ret
    | apply ignores_raise
    | apply ignores_extern
    | apply ignores_load; discriminate
    | apply ignores_store; discriminate
    | apply ignores_bind; [| intros ?]
    | match goal with
      | |- ignores _ (match ?v with _ => _ end) => destruct v
      end ].

(** X4: [numpy] is imported and never used.  In any kernel and whatever the
    libraries do, every cell after the first runs the same whatever the name
    [numpy] is bound to: the same calls, the same outcome, the same
    bindings of every other name, and [numpy] left as it was. *)
Theorem numpy_is_never_read :
  Forall (λ c, ignores "numpy" (source c)) (drop 1 notebook).
Proof.
  unfold notebook. simpl.
  repeat apply Forall_cons_2; try apply Forall_nil_2; simpl.
  all: unfold In_2, In_3, In_4, In_5, In_6, In_7, In_8, In_22, In_52,
         In_empty, use, load_obj, load_int, load_indices, load_form, load_expr.
  all: ignore.
Qed.

(** ** Running the cell of the solve again *)

Ltac wp_call :=
  lazymatch goal with
  | |- wp (extern _) _ _ =>
      apply wp_extern; cbn [ns lib log]; intros ? [?|?] _; cbv beta iota
  | |- _ => wp_any
  end.

(** In a kernel where the module, the forms and the condition are bound, the
    first thing In[22] does is to make the linear problem from them. *)
Lemma In_22_first_call (k : kernel) (a L : ufl_form) (b : H) :
  ns k !! "fe" = Some (VModule dolfinx) →
  ns k !! "a" = Some (VForm a) →
  ns k !! "L" = Some (VForm L) →
  ns k !! "bc" = Some (VObj cls_DirichletBC b) →
  ∃ r rest,
    log (In_22 k).1 = log k ++ Ev (LinearProblem a L [b] petsc_options) r :: rest.
Proof.
  intros Hfe Ha HL Hbc.
  change (wp In_22 (λ k' _, ∃ r rest,
            log k' = log k ++ Ev (LinearProblem a L [b] petsc_options) r :: rest) k).
  unfold In_22, use, load_form, load_obj.
  repeat wp_call; simplify_eq; rewrite <- ?app_assoc; try congruence;
    by eexists _, _.
Qed.

(** X5: the cell of the solve can be run again.  In any kernel and whatever
    the libraries do, when In[22] ends normally it has made exactly two
    calls, a linear problem from the forms and the condition bound to [a],
    [L] and [bc] with the options of the notebook and the solve of that
    problem, it has bound [problem] and [uh] to their results and nothing
    else, it displays nothing, and run once more it starts by making a
    linear problem from the same forms, condition and options. *)
Theorem solve_cell_rerun (k k1 : kernel) (o : output) :
  In_22 k = (k1, Ok o) →
  ∃ a L b p sol,
    ns k !! "a" = Some (VForm a)
    ∧ ns k !! "L" = Some (VForm L)
    ∧ ns k !! "bc" = Some (VObj cls_DirichletBC b)
    ∧ log k1 = log k ++ [Ev (LinearProblem a L [b] petsc_options) (Ok p);
                         Ev (solve p) (Ok sol)]
    ∧ ns k1 = <["uh" := VObj cls_Function sol]>
                (<["problem" := VObj cls_LinearProblem p]> (ns k))
    ∧ o = None
    ∧ ∃ r rest,
        log (In_22 k1).1
          = log k1 ++ Ev (LinearProblem a L [b] petsc_options) r :: rest.
Proof.
  intros Hrun.
  assert (wp In_22 (λ k' r, ∀ o', r = Ok o' →
            ∃ a L b p sol,
              ns k !! "fe" = Some (VModule dolfinx)
              ∧ ns k !! "a" = Some (VForm a)
              ∧ ns k !! "L" = Some (VForm L)
              ∧ ns k !! "bc" = Some (VObj cls_DirichletBC b)
              ∧ log k' = log k ++ [Ev (LinearProblem a L [b] petsc_options) (Ok p);
                                   Ev (solve p) (Ok sol)]
              ∧ ns k' = <["uh" := VObj cls_Function sol]>
                          (<["problem" := VObj cls_LinearProblem p]> (ns k))
              ∧ o' = None) k) as Hfirst.
  { unfold In_22, use, load_form, load_obj.
    repeat wp_call; intros o' Ho'; simplify_eq; try congruence.
    eexists _, _, _, _, _. rewrite <- app_assoc. by repeat split. }
  unfold wp in Hfirst. rewrite Hrun in Hfirst. cbn [fst snd] in Hfirst.
  destruct (Hfirst o eq_refl)
    as (a & L & b & p & sol & Hfe & Ha & HL & Hbc & Hlog & Hns & ->).
  exists a, L, b, p, sol. repeat split; try done.
  apply In_22_first_call; rewrite Hns, !lookup_insert_ne by done; done.
Qed.

(** ** Where the arguments of the calls come from *)

Definition event_bilinear_form (ev : event) : option ufl_form :=
  match ev with
  | Ev (LinearProblem a _ _ _) _ => Some a
  | _ => None
  end.

Definition event_exterior_facets (ev : event) : option H :=
  match ev with
  | Ev (exterior_facet_indices topo) _ => Some topo
  | _ => None
  end.

Lemma schedule_exterior_facets (i : nat) :
  schedule !! i = Some "exterior_facet_indices" → i = 14%nat.
Proof.
  intros Hi. assert (i < length schedule)%nat as Hlt by by eapply lookup_lt_Some.
  simpl in Hlt. do 23 (destruct i as [| i]; [by simplify_eq |]). lia.
Qed.

(** X6: one mesh and one function space carry the whole problem.  Whatever
    the libraries do, the bilinear form of every linear problem the run
    makes is [dot(grad(u), grad(v)) * dx] with [u] the trial and [v] the test
    function of one space; the test function of the linear form is of that
    space, and so is the function the boundary condition takes its values
    from; the space is the [("CG", 1)] space made on the mesh that
    [create_unit_square(MPI.COMM_WORLD, 8, 8, quadrilateral)] returned, on
    which the constant of the source term is made too. *)
Theorem problem_on_one_space (w : W) :
  Forall (λ ev, ∀ a, event_bilinear_form ev = Some a →
            ∃ mesh V g dofs b s c,
              a = integral (dot (grad (TrialFunction V)) (grad (TestFunction V))) dx
              ∧ event_linear_form ev
                = Some (integral (product (constant_value c) (TestFunction V)) dx)
              ∧ event_conditions ev = Some [b]
              ∧ Ev (create_unit_square COMM_WORLD 8 8 quadrilateral) (Ok mesh)
                  ∈ log (final w)
              ∧ Ev (FunctionSpace mesh ("CG", 1)) (Ok V) ∈ log (final w)
              ∧ Ev (Function V) (Ok g) ∈ log (final w)
              ∧ Ev (dirichletbc g dofs) (Ok b) ∈ log (final w)
              ∧ Ev (Constant mesh s) (Ok c) ∈ log (final w))
    (log (final w)).
Proof.
  run_notebook w.
  all: each_event.
  all: eexists _, _, _, _, _, _, _; split; [done |]; split; [done |];
    split; [done |]; split; [at_index 5%nat |]; split; [at_index 6%nat |];
    split; [at_index 7%nat |]; split; [at_index 16%nat | at_index 18%nat].
Qed.

(** X7: the facet-to-cell connectivity is made before the exterior facets
    are asked for.  Whatever the libraries do, every call of
    [exterior_facet_indices] is on the topology of the mesh of the notebook
    and comes after a call of [create_connectivity] that returned, made on
    the topology of the same mesh with the dimensions [tdim - 1] and [tdim],
    [tdim] being what [dim] returned for that mesh. *)
Theorem connectivity_before_exterior_facets (w : W) :
  Forall (λ ev, ∀ topo, event_exterior_facets ev = Some topo →
            ∃ mesh topo0 topo1 tdim,
              Ev (create_unit_square COMM_WORLD 8 8 quadrilateral) (Ok mesh)
                ∈ log (final w)
              ∧ Ev (topology mesh) (Ok topo0) ∈ log (final w)
              ∧ Ev (dim topo0) (Ok tdim) ∈ log (final w)
              ∧ Ev (topology mesh) (Ok topo1) ∈ log (final w)
              ∧ Ev (create_connectivity topo1 (tdim - 1) tdim) (Ok tt)
                  ∈ log (final w)
              ∧ Ev (topology mesh) (Ok topo) ∈ log (final w))
    (log (final w))
  ∧ precedes "create_connectivity" "exterior_facet_indices"
      (event_name <$> log (final w)).
Proof.
  split.
  - run_notebook w.
    all: each_event.
    all: eexists _, _, _, _; split; [at_index 5%nat |]; split; [at_index 9%nat |];
      split; [at_index 10%nat |]; split; [at_index 11%nat |];
      split; [at_index 12%nat | at_index 13%nat].
  - destruct (log_follows_schedule w) as [-> _].
    by apply take_precedes with 14%nat 12%nat;
      [apply schedule_exterior_facets | | lia].
Qed.

(** ** The imports *)

(** The names In[1] binds and the modules it binds them to, in order. *)
Definition imports : list (string * module) := [
  ("MPI", mpi4py_MPI); ("fe", dolfinx); ("numpy", numpy); ("ufl", ufl);
  ("PETSc", petsc4py_PETSc) ].

Definition bind_modules (l : list (string * module)) (m : gmap string pyval)
    : gmap string pyval :=
  foldl (λ m p, <[p.1 := VModule p.2]> m) m l.

(** X8: an import that fails stops the imports.  In any kernel and whatever
    the libraries do, In[1] binds the names of the imports that returned, in
    the order of the cell, and no other; it ends normally exactly when all
    five returned, and otherwise with the exception of the first import that
    raised, the last call it made. *)
Theorem imports_bind_in_order (k : kernel) :
  ∃ n, ns (In_1 k).1 = bind_modules (take n imports) (ns k)
    ∧ match (In_1 k).2 with
      | Ok o => n = 5%nat ∧ o = None
      | Raise x =>
          ∃ name md e,
            imports !! n = Some (name, md)
            ∧ x = External e
            ∧ last (log (In_1 k).1) = Some (Ev (import_ md) (Raise e))
      end.
Proof.
  change (wp In_1 (λ k' r,
            ∃ n, ns k' = bind_modules (take n imports) (ns k)
              ∧ match r with
                | Ok o => n = 5%nat ∧ o = None
                | Raise x =>
                    ∃ name md e,
                      imports !! n = Some (name, md)
                      ∧ x = External e
                      ∧ last (log k') = Some (Ev (import_ md) (Raise e))
                end) k).
  unfold In_1. repeat wp_call.
  - by exists 5%nat.
  - exists 4%nat. split; [done |]. eexists _, _, _.
    split; [reflexivity |]. split; [reflexivity |]. by rewrite last_snoc.
  - exists 3%nat. split; [done |]. eexists _, _, _.
    split; [reflexivity |]. split; [reflexivity |]. by rewrite last_snoc.
  - exists 2%nat. split; [done |]. eexists _, _, _.
    split; [reflexivity |]. split; [reflexivity |]. by rewrite last_snoc.
  - exists 1%nat. split; [done |]. eexists _, _, _.
    split; [reflexivity |]. split; [reflexivity |]. by rewrite last_snoc.
  - exists 0%nat. split; [done |]. eexists _, _, _.
    split; [reflexivity |]. split; [reflexivity |]. by rewrite last_snoc.
Qed.

End Notebook.

(** * The finite-element library, modelled from the spec

    The code of the libraries the notebook calls is not in the repository.
    What the calls compute is modelled from the pipeline the spec describes
    (mesh generator, function space, boundary condition evaluator, form
    assembler, linear solver), in exact arithmetic: the scalars are
    rationals in lowest terms, so that two scalars are equal exactly when
    they are the same number.  The module instantiates [handler]; the
    theorems on every [handler] do not depend on it. *)
Module Reference.

Inductive err : Type :=
| ImportError (m : module)
| IndexError
| RuntimeError (msg : string).

Abbreviation form := (@ufl_form nat).
Abbreviation expr := (@ufl_expr nat).

Inductive obj : Type :=
| OMesh (n0 n1 : nat) (connectivity : bool)
| OTopology (mesh : nat)
| OFunctionSpace (mesh : nat)
| OFunction (V : nat) (x : list Q)
| ODirichletBC (g : nat) (dofs : list nat)
| OConstant (c : Q)
| OLinearProblem (a L : form) (bcs : list nat) (direct : bool)
| OVec (u : nat).

Record world : Type := {
  installed : list module;
  heap : list obj
}.

Definition alloc (o : obj) (w : world) : world * nat :=
  ({| installed := installed w; heap := heap w ++ [o] |}, length (heap w)).

Definition update (h : nat) (o : obj) (w : world) : world :=
  {| installed := installed w; heap := <[h := o]> (heap w) |}.

(** ** The mesh: [n0] by [n1] square cells over the unit square *)

(** Modelled from the spec: the function space, which "attaches a continuous
    piecewise-linear polynomial basis to mesh vertices" with "one [degree of
    freedom] per mesh vertex": a mesh of [n0] by [n1] cells has
    [(n0 + 1) * (n1 + 1)] vertices. *)
Definition num_dofs (n0 n1 : nat) : nat := (n0 + 1) * (n1 + 1).

(** The degree of freedom at the vertex in column [i], row [j]. *)
Definition dof (n0 i j : nat) : nat := j * (n0 + 1) + i.

Definition node_of (n0 d : nat) : nat * nat := (d mod (n0 + 1), d / (n0 + 1))%nat.

(** Modelled from the spec: the mesh generator, which "produces a structured
    grid over a square domain": the vertex of the degree of freedom [d] of
    the unit square cut into [n0] by [n1] cells is at [(i/n0, j/n1, 0)]. *)
Definition coordinates (n0 n1 d : nat) : list Q :=
  let '(i, j) := node_of n0 d in
  [Qred (Z.of_nat i # Pos.of_nat n0); Qred (Z.of_nat j # Pos.of_nat n1); 0]%Q.

Inductive facet : Type :=
| Hor (i j : nat)      (* from vertex (i,j) to (i+1,j) *)
| Ver (i j : nat).     (* from vertex (i,j) to (i,j+1) *)

Definition facets (n0 n1 : nat) : list facet :=
  (j ← seq 0 (n1 + 1); i ← seq 0 n0; [Hor i j]) ++
  (j ← seq 0 n1; i ← seq 0 (n0 + 1); [Ver i j]).

(** Facet-to-cell connectivity: the cells a facet belongs to. *)
Definition facet_cells (n0 n1 : nat) (f : facet) : list (nat * nat) :=
  match f with
  | Hor i j =>
      (if decide (0 < j)%nat then [(i, j - 1)%nat] else []) ++
      (if decide (j < n1)%nat then [(i, j)] else [])
  | Ver i j =>
      (if decide (0 < i)%nat then [(i - 1, j)%nat] else []) ++
      (if decide (i < n0)%nat then [(i, j)] else [])
  end.

Definition facet_dofs (n0 : nat) (f : facet) : list nat :=
  match f with
  | Hor i j => [dof n0 i j; dof n0 (i + 1) j]
  | Ver i j => [dof n0 i j; dof n0 i (j + 1)]
  end.

(** Modelled from the spec: the exterior facets of the grid "partitioned
    into quadrilateral cells", those with exactly one cell. *)
Definition exterior_facets (n0 n1 : nat) : list nat :=
  (imap (λ k f, (k, f)) (facets n0 n1)) ≫=
    (λ kf, if decide (length (facet_cells n0 n1 kf.2) = 1%nat) then [kf.1] else []).

(** Modelled from the spec: the "boundary degrees of freedom", the degrees
    of freedom on the given facets, in increasing order. *)
Definition facets_dofs (n0 n1 : nat) (fs : list nat) : list nat :=
  let touched := fs ≫= (λ k, from_option (facet_dofs n0) [] (facets n0 n1 !! k)) in
  filter (λ d, d ∈ touched) (seq 0 (num_dofs n0 n1)).

(** ** Exact integration of forms on a cell

    A polynomial in the cell's coordinates is a list of monomials
    [c * x^a * y^b]. *)
Definition poly : Type := list (Q * (nat * nat)).

Definition pconst (c : Q) : poly := [(c, (0, 0))%nat].

Definition pmul (p q : poly) : poly :=
  '(c, (a, b)) ← p; '(c', (a', b')) ← q; [(Qred (c * c'), (a + a', b + b')%nat)].

Definition pdx (p : poly) : poly :=
  '(c, (a, b)) ← p;
  match a with
  | O => []
  | S a' => [(Qred (c * inject_Z (Z.of_nat a)), (a', b))]
  end.

Definition pdy (p : poly) : poly :=
  '(c, (a, b)) ← p;
  match b with
  | O => []
  | S b' => [(Qred (c * inject_Z (Z.of_nat b)), (a, b'))]
  end.

Fixpoint qpow (q : Q) (n : nat) : Q :=
  match n with
  | O => 1
  | S n' => Qred (q * qpow q n')
  end.

(** The integral over the cell [[0,hx] x [0,hy]]. *)
Definition pint (hx hy : Q) (p : poly) : Q :=
  foldr (λ '(c, (a, b)) acc,
           Qred (acc + c * (qpow hx (S a) / inject_Z (Z.of_nat (S a)))
                         * (qpow hy (S b) / inject_Z (Z.of_nat (S b)))))
        0%Q p.

(** The bilinear shape function of the cell's vertex [(ai, aj)], with [ai]
    and [aj] in [{0, 1}]. *)
Definition hat (h : Q) (side : nat) : poly :=
  match side with
  | O => [(1%Q, (0, 0)%nat); (Qred (- / h), (1, 0)%nat)]
  | _ => [(Qred (/ h), (1, 0)%nat)]
  end.

Definition swap_xy (p : poly) : poly :=
  '(c, (a, b)) ← p; [(c, (b, a))].

Definition shape (hx hy : Q) (ai aj : nat) : poly :=
  pmul (hat hx ai) (swap_xy (hat hy aj)).

(** The value of a UFL expression on a cell: a scalar or a vector field. *)
Inductive field : Type :=
| Sc (p : poly)
| Ve (px py : poly).

(** [trial] is [None] when a linear form is evaluated. *)
Fixpoint eval_ufl (hp : list obj) (trial : option poly) (test : poly)
    (e : expr) : option field :=
  match e with
  | TrialFunction _ => Sc <$> trial
  | TestFunction _ => Some (Sc test)
  | constant_value c =>
      match hp !! c with
      | Some (OConstant q) => Some (Sc (pconst q))
      | _ => None
      end
  | coefficient _ => None
  | grad e1 =>
      match eval_ufl hp trial test e1 with
      | Some (Sc p) => Some (Ve (pdx p) (pdy p))
      | _ => None
      end
  | dot e1 e2 =>
      match eval_ufl hp trial test e1, eval_ufl hp trial test e2 with
      | Some (Ve p1 p2), Some (Ve q1 q2) => Some (Sc (pmul p1 q1 ++ pmul p2 q2))
      | Some (Sc p1), Some (Sc q1) => Some (Sc (pmul p1 q1))
      | _, _ => None
      end
  | product e1 e2 =>
      match eval_ufl hp trial test e1, eval_ufl hp trial test e2 with
      | Some (Sc p1), Some (Sc q1) => Some (Sc (pmul p1 q1))
      | Some (Sc p1), Some (Ve q1 q2) => Some (Ve (pmul p1 q1) (pmul p1 q2))
      | _, _ => None
      end
  end.

Definition integrate (hp : list obj) (hx hy : Q) (trial : option poly)
    (test : poly) (F : form) : option Q :=
  match F with
  | integral e dx =>
      match eval_ufl hp trial test e with
      | Some (Sc p) => Some (pint hx hy p)
      | _ => None
      end
  | integral _ _ => None
  end.

(** The four vertices of a cell, as offsets from its lower left vertex. *)
Definition corners : list (nat * nat) := [(0, 0); (1, 0); (0, 1); (1, 1)]%nat.

(** Modelled from the spec: the form assembler, which "turns symbolic
    bilinear/linear expressions into a sparse matrix and right-hand-side
    vector".  The element matrix of a bilinear form and the element vector
    of a linear form; on a uniform mesh they are those of every cell. *)
Definition element_matrix (hp : list obj) (hx hy : Q) (a : form)
    : option (list (list Q)) :=
  mapM (λ '(ti, tj),
     mapM (λ '(ui, uj),
        integrate hp hx hy (Some (shape hx hy ui uj)) (shape hx hy ti tj) a)
       corners) corners.

Definition element_vector (hp : list obj) (hx hy : Q) (L : form)
    : option (list Q) :=
  mapM (λ '(ti, tj), integrate hp hx hy None (shape hx hy ti tj) L) corners.

(** ** Assembly *)

Definition cells (n0 n1 : nat) : list (nat * nat) :=
  cj ← seq 0 n1; ci ← seq 0 n0; [(ci, cj)].

Definition cell_dofs (n0 : nat) (c : nat * nat) : list nat :=
  (λ '(ai, aj), dof n0 (c.1 + ai) (c.2 + aj)) <$> corners.

Definition add_entries (ds : list nat) (vs : list Q) (b : list Q) : list Q :=
  foldr (λ '(d, v) acc, alter (λ x, Qred (x + v)) d acc) b (zip ds vs).

Definition add_rows (ds : list nat) (Ke : list (list Q)) (A : list (list Q))
    : list (list Q) :=
  foldr (λ '(d, row) acc, alter (add_entries ds row) d acc) A (zip ds Ke).

(** Modelled from the spec: the form assembler; the matrix and the
    right-hand side are the sums of the element matrices and vectors over
    the cells. *)
Definition assemble_matrix (n0 n1 : nat) (Ke : list (list Q)) : list (list Q) :=
  let n := num_dofs n0 n1 in
  foldr (λ c acc, add_rows (cell_dofs n0 c) Ke acc)
        (replicate n (replicate n 0%Q)) (cells n0 n1).

Definition assemble_vector (n0 n1 : nat) (be : list Q) : list Q :=
  foldr (λ c acc, add_entries (cell_dofs n0 c) be acc)
        (replicate (num_dofs n0 n1) 0%Q) (cells n0 n1).

(** ** Dirichlet conditions

    The prescribed value of each degree of freedom, if any. *)
Definition prescribed (n : nat) (cs : list (nat * Q)) : list (option Q) :=
  foldr (λ '(d, v) acc, <[d := Some v]> acc) (replicate n None) cs.

Definition dotq (u v : list Q) : Q :=
  foldr (λ '(a, b) acc, Qred (acc + a * b)) 0%Q (zip u v).

(** Modelled from the spec: the boundary condition evaluator, which uses
    the values of a function "at boundary degrees of freedom to fix
    Dirichlet values".  A constrained row is replaced by the equation
    [x_i = g_i]; in the other rows the constrained columns are moved to the
    right-hand side. *)
Definition constrain (fixed : list (option Q)) (A : list (list Q)) (b : list Q)
    : list (list Q * Q) :=
  let g := from_option (λ v, v) 0%Q <$> fixed in
  imap (λ i '(row, bi),
          match fixed !! i with
          | Some (Some gi) =>
              (imap (λ j _, if decide (i = j) then 1%Q else 0%Q) row, gi)
          | _ =>
              let known := zip_with (λ a f, if f is Some _ then a else 0%Q) row fixed in
              (zip_with (λ a f, if f is Some _ then 0%Q else a) row fixed,
               Qred (bi - dotq known g))
          end)
       (zip A b).

(** ** Gaussian elimination without pivoting; [None] on a zero pivot. *)
Definition eliminate (p : Q) (cs : list Q) (b : Q) (row : list Q * Q)
    : list Q * Q :=
  match row.1 with
  | [] => ([], row.2)
  | q :: cs' =>
      if Qeq_bool q 0 then (cs', row.2)
      else
        let m := Qred (q / p) in
        (zip_with (λ c' c, Qred (c' - m * c)) cs' cs, Qred (row.2 - m * b))
  end.

(** Modelled from the spec: the linear solver, which "factorizes and solves
    the resulting sparse linear system" (LU factorisation): elimination
    below each pivot, then back substitution. *)
Fixpoint solve_rows (fuel : nat) (rows : list (list Q * Q)) : option (list Q) :=
  match fuel, rows with
  | _, [] => Some []
  | O, _ :: _ => None
  | S fuel', (coefs, b) :: rest =>
      match coefs with
      | [] => None
      | p :: cs =>
          if Qeq_bool p 0 then None
          else
            xs ← solve_rows fuel' (eliminate p cs b <$> rest);
            Some (Qred ((b - dotq cs xs) / p) :: xs)
      end
  end.

(** The function space of the trial function of a form. *)
Fixpoint trial_space (e : expr) : option nat :=
  match e with
  | TrialFunction V => Some V
  | TestFunction _ | constant_value _ | coefficient _ => None
  | grad e1 => trial_space e1
  | dot e1 e2 | product e1 e2 =>
      match trial_space e1 with
      | Some V => Some V
      | None => trial_space e2
      end
  end.

Definition bc_constraints (hp : list obj) (b : nat) : option (list (nat * Q)) :=
  match hp !! b with
  | Some (ODirichletBC g dofs) =>
      match hp !! g with
      | Some (OFunction _ x) => Some (constraints x dofs)
      | _ => None
      end
  | _ => None
  end.

Definition mesh_of_space (hp : list obj) (V : nat) : option (nat * nat * bool) :=
  match hp !! V with
  | Some (OFunctionSpace m) =>
      match hp !! m with
      | Some (OMesh n0 n1 conn) => Some (n0, n1, conn)
      | _ => None
      end
  | _ => None
  end.

(** Modelled from the spec: the linear solve the notebook invokes, form
    assembler then linear solver: the discrete problem [a(u, v) = L(v)]
    with the conditions [bcs]. *)
Definition solve_problem (hp : list obj) (a L : form) (bcs : list nat)
    : option (nat * list Q) :=
  V ← (let 'integral e _ := a in trial_space e);
  '(n0, n1, _) ← mesh_of_space hp V;
  let hx := (1 # Pos.of_nat n0)%Q in
  let hy := (1 # Pos.of_nat n1)%Q in
  Ke ← element_matrix hp hx hy a;
  be ← element_vector hp hx hy L;
  cs ← mapM (bc_constraints hp) bcs;
  let n := num_dofs n0 n1 in
  let rows := constrain (prescribed n (concat cs))
                (assemble_matrix n0 n1 Ke) (assemble_vector n0 n1 be) in
  x ← solve_rows n rows;
  Some (V, x).

(** ** The calls *)

Definition fail {A : Type} (msg : string) (w : world) : world * result err A :=
  (w, Raise (RuntimeError msg)).

Definition do_import (m : module) (w : world) : world * result err unit :=
  if decide (m ∈ installed w) then (w, Ok tt) else (w, Raise (ImportError m)).

(** Modelled from the spec: the mesh generator, "a structured grid over a
    square domain, partitioned into quadrilateral cells". *)
Definition do_create_unit_square (n0 n1 : Z) (ct : CellType) (w : world)
    : world * result err nat :=
  match ct with
  | quadrilateral =>
      if decide (0 < n0 ∧ 0 < n1) then
        let (w', h) := alloc (OMesh (Z.to_nat n0) (Z.to_nat n1) false) w in
        (w', Ok h)
      else fail "create_unit_square: no cells" w
  | _ => fail "create_unit_square: only quadrilateral cells" w
  end.

Definition do_FunctionSpace (mesh : nat) (el : string * Z) (w : world)
    : world * result err nat :=
  match heap w !! mesh with
  | Some (OMesh _ _ _) =>
      if decide ((el.1 = "CG" ∨ el.1 = "Lagrange") ∧ el.2 = 1) then
        let (w', h) := alloc (OFunctionSpace mesh) w in (w', Ok h)
      else fail "FunctionSpace: only degree 1 Lagrange elements" w
  | _ => fail "FunctionSpace: not a mesh" w
  end.

Definition do_Function (V : nat) (w : world) : world * result err nat :=
  match mesh_of_space (heap w) V with
  | Some (n0, n1, _) =>
      let (w', h) := alloc (OFunction V (replicate (num_dofs n0 n1) 0%Q)) w in
      (w', Ok h)
  | None => fail "Function: not a function space" w
  end.

(** Modelled from the spec: the boundary condition evaluator, which
    "evaluates a known analytic function at ... degrees of freedom".
    Interpolation evaluates the expression at the coordinates of every
    degree of freedom of the space and overwrites the function. *)
Definition do_interpolate (u : nat) (f : pyexpr) (w : world)
    : world * result err unit :=
  match heap w !! u with
  | Some (OFunction V _) =>
      match mesh_of_space (heap w) V with
      | Some (n0, n1, _) =>
          match mapM (λ d, Qred <$> eval Q_arith (coordinates n0 n1 d) f)
                     (seq 0 (num_dofs n0 n1)) with
          | Some x => (update u (OFunction V x) w, Ok tt)
          | None => (w, Raise IndexError)
          end
      | None => fail "interpolate: not a function space" w
      end
  | _ => fail "interpolate: not a function" w
  end.

Definition do_topology (mesh : nat) (w : world) : world * result err nat :=
  match heap w !! mesh with
  | Some (OMesh _ _ _) => let (w', h) := alloc (OTopology mesh) w in (w', Ok h)
  | _ => fail "topology: not a mesh" w
  end.

Definition mesh_of_topology (hp : list obj) (topo : nat)
    : option (nat * (nat * nat * bool)) :=
  match hp !! topo with
  | Some (OTopology m) =>
      match hp !! m with
      | Some (OMesh n0 n1 conn) => Some (m, (n0, n1, conn))
      | _ => None
      end
  | _ => None
  end.

Definition do_dim (topo : nat) (w : world) : world * result err Z :=
  match mesh_of_topology (heap w) topo with
  | Some _ => (w, Ok 2)
  | None => fail "dim: not a topology" w
  end.

Definition do_create_connectivity (topo : nat) (d0 d1 : Z) (w : world)
    : world * result err unit :=
  match mesh_of_topology (heap w) topo with
  | Some (m, (n0, n1, conn)) =>
      if decide (0 ≤ d0 ≤ 2 ∧ 0 ≤ d1 ≤ 2) then
        if decide (d0 = 1 ∧ d1 = 2) then (update m (OMesh n0 n1 true) w, Ok tt)
        else (w, Ok tt)
      else fail "create_connectivity: dimension out of range" w
  | None => fail "create_connectivity: not a topology" w
  end.

Definition do_exterior_facet_indices (topo : nat) (w : world)
    : world * result err (list nat) :=
  match mesh_of_topology (heap w) topo with
  | Some (_, (n0, n1, true)) => (w, Ok (exterior_facets n0 n1))
  | Some (_, (_, _, false)) =>
      fail "exterior_facet_indices: facet to cell connectivity has not been computed" w
  | None => fail "exterior_facet_indices: not a topology" w
  end.

Definition do_locate_dofs_topological (V : nat) (d : Z) (fs : list nat) (w : world)
    : world * result err (list nat) :=
  match mesh_of_space (heap w) V with
  | Some (n0, n1, _) =>
      if decide (d = 1) then
        if decide (Forall (λ k, k < length (facets n0 n1))%nat fs)
        then (w, Ok (facets_dofs n0 n1 fs))
        else (w, Raise IndexError)
      else fail "locate_dofs_topological: only facets" w
  | None => fail "locate_dofs_topological: not a function space" w
  end.

Definition do_dirichletbc (g : nat) (dofs : list nat) (w : world)
    : world * result err nat :=
  match heap w !! g with
  | Some (OFunction _ _) =>
      let (w', h) := alloc (ODirichletBC g dofs) w in (w', Ok h)
  | _ => fail "dirichletbc: not a function" w
  end.

Definition do_Constant (mesh : nat) (c : Q) (w : world) : world * result err nat :=
  match heap w !! mesh with
  | Some (OMesh _ _ _) => let (w', h) := alloc (OConstant c) w in (w', Ok h)
  | _ => fail "Constant: not a mesh" w
  end.

Definition do_LinearProblem (a L : form) (bcs : list nat)
    (options : gmap string string) (w : world) : world * result err nat :=
  let direct := bool_decide (options !! "ksp_type" = Some "preonly"
                             ∧ options !! "pc_type" = Some "lu") in
  let (w', h) := alloc (OLinearProblem a L bcs direct) w in (w', Ok h).

(** Modelled from the spec: the "pre-built linear solve routine"; its result
    is a new function of the space of the problem. *)
Definition do_solve (p : nat) (w : world) : world * result err nat :=
  match heap w !! p with
  | Some (OLinearProblem a L bcs true) =>
      match solve_problem (heap w) a L bcs with
      | Some (V, x) => let (w', h) := alloc (OFunction V x) w in (w', Ok h)
      | None => fail "solve: the forms cannot be assembled or a pivot is zero" w
      end
  | Some (OLinearProblem _ _ _ false) => fail "solve: only the direct solver" w
  | _ => fail "solve: not a linear problem" w
  end.

Definition do_vector (u : nat) (w : world) : world * result err nat :=
  match heap w !! u with
  | Some (OFunction _ _) => let (w', h) := alloc (OVec u) w in (w', Ok h)
  | _ => fail "vector: not a function" w
  end.

(** Modelled from the spec: the output, "a flat ordered numeric array of
    solution values indexed by degree-of-freedom number". *)
Definition do_array (vec : nat) (w : world) : world * result err (list Q) :=
  match heap w !! vec with
  | Some (OVec u) =>
      match heap w !! u with
      | Some (OFunction _ x) => (w, Ok x)
      | _ => fail "array: not a function" w
      end
  | _ => fail "array: not a vector" w
  end.

(** Modelled from the spec: the external libraries as a whole, which the
    notebook "only configures and calls". *)
Definition handle : @handler nat Q err world :=
  λ X c,
    match c in call X return world → world * result err X with
    | import_ m => do_import m
    | create_unit_square _ n0 n1 ct => do_create_unit_square n0 n1 ct
    | FunctionSpace mesh el => do_FunctionSpace mesh el
    | Function V => do_Function V
    | interpolate u f => do_interpolate u f
    | topology mesh => do_topology mesh
    | dim topo => do_dim topo
    | create_connectivity topo d0 d1 => do_create_connectivity topo d0 d1
    | exterior_facet_indices topo => do_exterior_facet_indices topo
    | locate_dofs_topological V d fs => do_locate_dofs_topological V d fs
    | dirichletbc g dofs => do_dirichletbc g dofs
    | ScalarType z => λ w, (w, Ok (inject_Z z))
    | Constant mesh c => do_Constant mesh c
    | LinearProblem a L bcs options => do_LinearProblem a L bcs options
    | solve p => do_solve p
    | vector u => do_vector u
    | array vec => do_array vec
    end.

(** A machine with every library installed, and one without PETSc. *)
Definition complete : world :=
  {| installed := [mpi4py_MPI; dolfinx; numpy; ufl; petsc4py_PETSc]; heap := [] |}.

Definition without_petsc : world :=
  {| installed := [mpi4py_MPI; dolfinx; numpy; ufl]; heap := [] |}.

End Reference.


(** * The recorded output *)

#[local] Instance Q_eq_dec : EqDecision Q.
Proof. solve_decision. Defined.

Lemma u_Q_eq (x y : Q) : (u_Q x y == 1 + x * x + 2 * (y * y))%Q.
Proof. unfold u_Q. simpl. ring. Qed.

Lemma u_Q_range (x y : Q) :
  (0 <= x <= 1 → 0 <= y <= 1 → 1 <= u_Q x y <= 4)%Q.
Proof.
  intros [Hx0 Hx1] [Hy0 Hy1]. rewrite u_Q_eq.
  assert (0 <= x * x)%Q by (apply Qmult_le_0_compat; done).
  assert (0 <= y * y)%Q by (apply Qmult_le_0_compat; done).
  assert (x * x <= 1 * 1)%Q by (apply Qmult_le_compat_nonneg; done).
  assert (y * y <= 1 * 1)%Q by (apply Qmult_le_compat_nonneg; done).
  split; Lqa.lra.
Qed.

(** Decidable forms of the comparisons of rationals. *)
Lemma Forall_Qle_range (lo hi : Q) (l : list Q) :
  forallb (λ v, Qle_bool lo v && Qle_bool v hi) l = true →
  Forall (λ v, lo <= v <= hi)%Q l.
Proof.
  intros Hall. apply Forall_forall. intros v Hv.
  rewrite forallb_forall in Hall. apply list_elem_of_In in Hv.
  specialize (Hall v Hv). apply andb_prop in Hall as [Hlo Hhi].
  split; by apply Qle_bool_iff.
Qed.

Lemma Forall2_Qeq {A : Type} (f : A → Q) (l : list Q) (l' : list A) :
  length l = length l' →
  forallb (λ p, Qeq_bool p.1 (f p.2)) (zip l l') = true →
  Forall2 (λ v a, v == f a)%Q l l'.
Proof.
  revert l'. induction l as [| v l IH]; intros [| a l'] Hlen Hall;
    try discriminate Hlen; constructor.
  - simpl in Hall. apply andb_prop in Hall as [Hv _]. by apply Qeq_bool_iff.
  - apply IH; [by injection Hlen |]. simpl in Hall.
    by apply andb_prop in Hall as [_ Hall].
Qed.

(** * The run on the library modelled from the spec *)

(** The array a run displays, if it displays one. *)
Definition displayed {E Scalar : Type}
    (r : result (@exc E) (@output Scalar)) : list Scalar :=
  match r with
  | Ok (Some arr) => arr
  | _ => []
  end.

(** The run of the notebook in a new kernel on the machine with every
    library: the kernel it leaves and how it ends, computed once. *)
Definition reference_state
    : @kernel nat Q Reference.err Reference.world
      * result (@exc Reference.err) (@output Q) :=
  Eval vm_compute in run_all Reference.handle (fresh Reference.complete).

(** What it displays. *)
Definition reference_output : list Q :=
  Eval vm_compute in displayed reference_state.2.

Lemma reference_run_all :
  run_all Reference.handle (fresh Reference.complete) = reference_state.
Proof. vm_compute. reflexivity. Qed.

Lemma reference_final :
  final Reference.handle Reference.complete = reference_state.1.
Proof. unfold final. by rewrite reference_run_all. Qed.

Lemma reference_outcome :
  outcome Reference.handle Reference.complete = Ok (Some reference_output).
Proof. unfold outcome. by rewrite reference_run_all. Qed.

(** The run ends normally after the whole schedule. *)
Lemma reference_run :
  event_name <$> log (final Reference.handle Reference.complete) = schedule.
Proof. rewrite reference_final. by vm_compute. Qed.

(** The reference solution is the boundary function at every vertex, the
    degrees of freedom being numbered row by row. *)
Lemma reference_output_exact :
  Forall2 (λ v n, v == node_value n)%Q reference_output (grid nx ny).
Proof. apply Forall2_Qeq; by vm_compute. Qed.

(** It is the recorded array, up to the numbering of the degrees of
    freedom. *)
Lemma reference_output_recorded :
  Qred <$> reference_output ≡ₚ Qred <$> Out_52.
Proof. apply (bool_decide_unpack _). by vm_compute. Qed.

(** ** The frame of a boundary condition in the modelled library

    Overwriting a function changes neither how forms are integrated nor the
    mesh of a space, and changes what a boundary condition prescribes only
    through the values at the indices of the condition: the reference
    solution does not depend on the values the boundary function takes
    elsewhere. *)

Lemma lookup_overwrite (hp : list Reference.obj) (g V : nat) (x x' : list Q)
    (i : nat) :
  hp !! g = Some (Reference.OFunction V x) →
  <[g := Reference.OFunction V x']> hp !! i
    = if decide (i = g) then Some (Reference.OFunction V x') else hp !! i.
Proof.
  intros Hg. destruct (decide (i = g)) as [-> | Hne].
  - apply list_lookup_insert_eq. by eapply lookup_lt_Some.
  - by apply list_lookup_insert_ne.
Qed.

Lemma eval_ufl_overwrite (hp : list Reference.obj) (g V : nat) (x x' : list Q)
    (trial : option Reference.poly) (test : Reference.poly) (e : @ufl_expr nat) :
  hp !! g = Some (Reference.OFunction V x) →
  Reference.eval_ufl (<[g := Reference.OFunction V x']> hp) trial test e
    = Reference.eval_ufl hp trial test e.
Proof.
  intros Hg. induction e as [| | c | | e IH | e1 IH1 e2 IH2 | e1 IH1 e2 IH2];
    simpl; try done.
  - rewrite (lookup_overwrite hp g V x x' c Hg).
    destruct (decide (c = g)) as [-> |]; [by rewrite Hg | done].
  - by rewrite IH.
  - by rewrite IH1, IH2.
  - by rewrite IH1, IH2.
Qed.

Lemma integrate_overwrite (hp : list Reference.obj) (g V : nat) (x x' : list Q)
    (hx hy : Q) (trial : option Reference.poly) (test : Reference.poly)
    (F : @ufl_form nat) :
  hp !! g = Some (Reference.OFunction V x) →
  Reference.integrate (<[g := Reference.OFunction V x']> hp) hx hy trial test F
    = Reference.integrate hp hx hy trial test F.
Proof.
  intros Hg. destruct F as [e m]. simpl.
  by rewrite (eval_ufl_overwrite hp g V x x' trial test e Hg).
Qed.

Lemma mesh_of_space_overwrite (hp : list Reference.obj) (g V : nat)
    (x x' : list Q) (S : nat) :
  hp !! g = Some (Reference.OFunction V x) →
  Reference.mesh_of_space (<[g := Reference.OFunction V x']> hp) S
    = Reference.mesh_of_space hp S.
Proof.
  intros Hg. unfold Reference.mesh_of_space.
  rewrite (lookup_overwrite hp g V x x' S Hg).
  destruct (decide (S = g)) as [-> |]; [by rewrite Hg |].
  destruct (hp !! S) as [[| |m| | | | |]|]; try done.
  rewrite (lookup_overwrite hp g V x x' m Hg).
  destruct (decide (m = g)) as [-> |]; [by rewrite Hg | done].
Qed.

Lemma bc_constraints_overwrite (hp : list Reference.obj) (g V : nat)
    (x x' : list Q) (b : nat) :
  hp !! g = Some (Reference.OFunction V x) →
  (∀ dofs d, hp !! b = Some (Reference.ODirichletBC g dofs) →
             d ∈ dofs → x !! d = x' !! d) →
  Reference.bc_constraints (<[g := Reference.OFunction V x']> hp) b
    = Reference.bc_constraints hp b.
Proof.
  intros Hg Hagree. unfold Reference.bc_constraints.
  rewrite (lookup_overwrite hp g V x x' b Hg).
  destruct (decide (b = g)) as [-> |]; [by rewrite Hg |].
  destruct (hp !! b) as [[| | | |g' dofs| | |]|] eqn:Hb; try done.
  rewrite (lookup_overwrite hp g V x x' g' Hg).
  destruct (decide (g' = g)) as [-> |]; [| done].
  rewrite Hg. f_equal. symmetry. apply constraints_frame.
  intros d Hd. by apply (Hagree dofs).
Qed.

Lemma solve_problem_frame (hp : list Reference.obj) (g V : nat) (x x' : list Q)
    (a L : @ufl_form nat) (bcs : list nat) :
  hp !! g = Some (Reference.OFunction V x) →
  (∀ b dofs d, b ∈ bcs → hp !! b = Some (Reference.ODirichletBC g dofs) →
               d ∈ dofs → x !! d = x' !! d) →
  Reference.solve_problem (<[g := Reference.OFunction V x']> hp) a L bcs
    = Reference.solve_problem hp a L bcs.
Proof.
  intros Hg Hagree. unfold Reference.solve_problem.
  destruct (let 'integral e _ := a in Reference.trial_space e) as [S|]; [| done].
  simpl. rewrite (mesh_of_space_overwrite hp g V x x' S Hg).
  destruct (Reference.mesh_of_space hp S) as [[[n0 n1] conn]|]; [| done].
  simpl.
  assert (∀ hx hy F, Reference.element_matrix
                       (<[g := Reference.OFunction V x']> hp) hx hy F
                     = Reference.element_matrix hp hx hy F) as ->.
  { intros hx hy F. unfold Reference.element_matrix, Reference.corners. simpl.
    by rewrite !(integrate_overwrite hp g V x x' _ _ _ _ _ Hg). }
  assert (∀ hx hy F, Reference.element_vector
                       (<[g := Reference.OFunction V x']> hp) hx hy F
                     = Reference.element_vector hp hx hy F) as ->.
  { intros hx hy F. unfold Reference.element_vector, Reference.corners. simpl.
    by rewrite !(integrate_overwrite hp g V x x' _ _ _ _ _ Hg). }
  assert (mapM (Reference.bc_constraints (<[g := Reference.OFunction V x']> hp)) bcs
          = mapM (Reference.bc_constraints hp) bcs) as ->; [| done].
  induction bcs as [| b bcs IH]; [done |]. simpl.
  rewrite (bc_constraints_overwrite hp g V x x' b Hg).
  - rewrite IH; [done |]. intros b' dofs d Hb'. apply Hagree. by right.
  - intros dofs d. apply Hagree. by left.
Qed.

(** ** The array the solve returns

    The claims on the values of the solution are settled on the run of the
    notebook on the library modelled from the spec.  The kernel the run
    leaves holds the names of the notebook; the objects behind them are in
    the heap of the library. *)

(** The objects the library holds when the run has ended. *)
Definition reference_heap : list Reference.obj :=
  Reference.heap (lib (final Reference.handle Reference.complete)).

(** The boundary function at the coordinates of a point. *)
Definition exact_at (c : list Q) : Q := default 0%Q (eval Q_arith c u_D).

(** The points of the boundary of the unit square: [x] or [y] is 0 or 1. *)
Definition on_square_boundary (c : list Q) : bool :=
  match c with
  | [x; y; _] => Qeq_bool x 0 || Qeq_bool x 1 || Qeq_bool y 0 || Qeq_bool y 1
  | _ => false
  end.

(** The forms In[8] builds, on the space [V] and with the constant [c]:
    [ufl.dot(ufl.grad(u), ufl.grad(v)) * ufl.dx] and [f * v * ufl.dx]. *)
Definition bilinear_form (V : nat) : @ufl_form nat :=
  integral (dot (grad (TrialFunction V)) (grad (TestFunction V))) dx.

Definition linear_form (c V : nat) : @ufl_form nat :=
  integral (product (constant_value c) (TestFunction V)) dx.

Lemma reference_heap_eq :
  reference_heap = Reference.heap (lib reference_state.1).
Proof. unfold reference_heap. by rewrite reference_final. Qed.

(** The array displayed is the solution of the problem of In[22]: the space
    is the second object the run makes, the condition the seventh, the
    constant the eighth. *)
Lemma reference_solve :
  Reference.solve_problem (Reference.heap (lib reference_state.1))
    (bilinear_form 1) (linear_form 7 1) [6%nat]
  = Some (1%nat, reference_output).
Proof. by vm_compute. Qed.

Lemma reference_nodes_exact :
  Forall2 (λ v d, v == exact_at (Reference.coordinates 8 8 d))%Q
    reference_output (seq 0 81).
Proof. apply Forall2_Qeq; by vm_compute. Qed.

Lemma reference_node_exact (d : nat) (v : Q) :
  reference_output !! d = Some v →
  ∃ x y, Reference.coordinates 8 8 d = [x; y; 0%Q]
         ∧ (v == 1 + x * x + 2 * (y * y))%Q.
Proof.
  intros Hv.
  destruct (Forall2_lookup_l _ _ _ _ _ reference_nodes_exact Hv)
    as (d' & Hd' & Hexact).
  apply lookup_seq in Hd' as [-> _]. simpl in Hexact.
  revert Hexact. unfold Reference.coordinates.
  destruct (Reference.node_of 8 d) as [i j]. intros Hexact.
  eexists _, _. split; [reflexivity |].
  rewrite Hexact. unfold exact_at. simpl. ring.
Qed.

(** Every vertex [(i/8, j/8)] of the mesh is the point of a degree of
    freedom. *)
Lemma reference_nodes (i j : nat) :
  (i ≤ 8)%nat → (j ≤ 8)%nat →
  ∃ d, (d < 81)%nat
       ∧ Reference.coordinates 8 8 d
         = [Qred (Z.of_nat i # 8); Qred (Z.of_nat j # 8); 0%Q].
Proof.
  intros Hi Hj.
  assert (Forall (λ i, Forall (λ j,
            (Reference.dof 8 i j < 81)%nat
            ∧ Reference.coordinates 8 8 (Reference.dof 8 i j)
              = [Qred (Z.of_nat i # 8); Qred (Z.of_nat j # 8); 0%Q])
            (seq 0 9)) (seq 0 9))
    as Hall by (apply (bool_decide_unpack _); by vm_compute).
  rewrite Forall_forall in Hall. specialize (Hall i).
  rewrite Forall_forall in Hall.
  exists (Reference.dof 8 i j). apply Hall; apply elem_of_seq; lia.
Qed.

(** The function interpolated in In[3] is the third object the run makes;
    on the degrees of freedom of the exterior facets the array displayed has
    the very entries of that function. *)
Lemma reference_interpolated :
  ∃ x, Reference.heap (lib reference_state.1) !! 2%nat
       = Some (Reference.OFunction 1 x)
       ∧ Forall2 (λ v d, Qred <$> eval Q_arith (Reference.coordinates 8 8 d) u_D
                         = Some v) x (seq 0 81)
       ∧ Forall (λ d, is_Some (reference_output !! d)
                      ∧ reference_output !! d = x !! d)
           (Reference.facets_dofs 8 8 (Reference.exterior_facets 8 8)).
Proof.
  eexists. split; [by vm_compute |]. split.
  - apply (bool_decide_unpack _). by vm_compute.
  - apply (bool_decide_unpack _). by vm_compute.
Qed.

(** The degrees of freedom of the exterior facets are those at the points
    of the boundary of the square. *)
Lemma boundary_dofs_located (d : nat) :
  d ∈ Reference.facets_dofs 8 8 (Reference.exterior_facets 8 8)
  ↔ (d < 81)%nat ∧ on_square_boundary (Reference.coordinates 8 8 d) = true.
Proof.
  split.
  - revert d. apply Forall_forall. apply (bool_decide_unpack _). by vm_compute.
  - intros [Hd Hb]. revert Hb.
    assert (Forall (λ d, on_square_boundary (Reference.coordinates 8 8 d) = true →
                         d ∈ Reference.facets_dofs 8 8 (Reference.exterior_facets 8 8))
              (seq 0 81)) as Hall
      by (apply (bool_decide_unpack _); by vm_compute).
    rewrite Forall_forall in Hall. apply Hall, elem_of_seq. lia.
Qed.


(** C2: on the boundary the solution is the interpolated function, entry
    for entry.  On the library modelled from the spec, whose scalars are
    rationals in lowest terms (two scalars are the same exactly when they
    are the same number), the run binds [u_boundary] to a function whose
    entries are the values of [lambda x: 1 + x[0]**2 + 2*x[1]**2] at the
    points of the degrees of freedom; [locate_dofs_topological] returns, for
    the exterior facets, the 32 degrees of freedom at the points of the
    boundary of the square; the condition of the problem solved is made of
    that function and those degrees of freedom; and at each of them the
    array displayed has the very entry of the interpolated function.  The
    solve imposes these entries and takes nothing else from the function:
    with any other entries at the remaining degrees of freedom it returns
    the same array. *)
Theorem boundary_values_are_interpolated :
  ∃ (V g topo b p sol : nat) (facets dofs : list nat) (a L : @ufl_form nat)
    (x arr : list Q),
    ns (final Reference.handle Reference.complete) !! "u_boundary"
      = Some (VObj cls_Function g)
    ∧ reference_heap !! g = Some (Reference.OFunction V x)
    ∧ Forall2 (λ v d, Qred <$> eval Q_arith (Reference.coordinates 8 8 d) u_D
                      = Some v) x (seq 0 81)
    ∧ Ev (exterior_facet_indices topo) (Ok facets)
        ∈ log (final Reference.handle Reference.complete)
    ∧ Ev (locate_dofs_topological V 1 facets) (Ok dofs)
        ∈ log (final Reference.handle Reference.complete)
    ∧ (∀ d, d ∈ dofs
            ↔ (d < 81)%nat
              ∧ on_square_boundary (Reference.coordinates 8 8 d) = true)
    ∧ length dofs = 32%nat
    ∧ reference_heap !! b = Some (Reference.ODirichletBC g dofs)
    ∧ reference_heap !! p = Some (Reference.OLinearProblem a L [b] true)
    ∧ Ev (solve p) (Ok sol) ∈ log (final Reference.handle Reference.complete)
    ∧ reference_heap !! sol = Some (Reference.OFunction V arr)
    ∧ outcome Reference.handle Reference.complete = Ok (Some arr)
    ∧ (∀ d, d ∈ dofs → ∃ v, arr !! d = Some v ∧ x !! d = Some v)
    ∧ (∀ x', (∀ d, d ∈ dofs → x !! d = x' !! d) →
         Reference.solve_problem
           (<[g := Reference.OFunction V x']> reference_heap) a L [b]
         = Some (V, arr)).
Proof.
  destruct reference_interpolated as (x & Hx & Hinterp & Hsame).
  exists 1%nat, 2%nat, 5%nat, 6%nat, 8%nat, 9%nat,
    (Reference.exterior_facets 8 8),
    (Reference.facets_dofs 8 8 (Reference.exterior_facets 8 8)),
    (bilinear_form 1), (linear_form 7 1), x, reference_output.
  rewrite reference_heap_eq, reference_final, reference_outcome.
  repeat apply conj.
  - by vm_compute.
  - exact Hx.
  - exact Hinterp.
  - apply list_elem_of_lookup_2 with 14%nat. by vm_compute.
  - apply list_elem_of_lookup_2 with 15%nat. by vm_compute.
  - intros d. apply boundary_dofs_located.
  - by vm_compute.
  - by vm_compute.
  - by vm_compute.
  - apply list_elem_of_lookup_2 with 20%nat. by vm_compute.
  - by vm_compute.
  - reflexivity.
  - intros d Hd. rewrite Forall_forall in Hsame.
    destruct (Hsame d Hd) as [[v Hv] Heq]. exists v. split; [done |].
    by rewrite <- Heq.
  - intros x' Hagree. rewrite <- reference_solve.
    apply (solve_problem_frame _ 2%nat 1%nat x x'); [exact Hx |].
    intros b dofs d Hb Hdofs Hd. apply Hagree.
    apply list_elem_of_singleton in Hb as ->.
    assert (Reference.heap (lib reference_state.1) !! 6%nat
            = Some (Reference.ODirichletBC 2
                      (Reference.facets_dofs 8 8 (Reference.exterior_facets 8 8))))
      as Hbc by (by vm_compute).
    rewrite Hbc in Hdofs. by injection Hdofs as <-.
Qed.

(** C4: the output is the array of the solution, one entry for each vertex
    of the mesh.  On the library modelled from the spec, the run binds
    [solution_domain] to the mesh of 8 by 8 cells, [V_function_space] to a
    space on it and [uh] to a function of that space; what the run displays
    is a list of numbers, the one the last call, [uh.vector.array],
    returned, and it is the list of the entries of [uh] by degree of
    freedom.  It has 81 = (8 + 1) * (8 + 1) entries, at the indices 0 to 80;
    the 81 degrees of freedom are at 81 different points and every vertex
    [(i/8, j/8)] of the mesh is one of them.  The array recorded in Out[52]
    has as many entries. *)
Theorem computed_array_has_81_entries :
  ∃ (mesh V sol vec : nat) (arr : list Q),
    ns (final Reference.handle Reference.complete) !! "solution_domain"
      = Some (VObj cls_Mesh mesh)
    ∧ reference_heap !! mesh = Some (Reference.OMesh 8 8 true)
    ∧ ns (final Reference.handle Reference.complete) !! "V_function_space"
      = Some (VObj cls_FunctionSpace V)
    ∧ reference_heap !! V = Some (Reference.OFunctionSpace mesh)
    ∧ ns (final Reference.handle Reference.complete) !! "uh"
      = Some (VObj cls_Function sol)
    ∧ reference_heap !! sol = Some (Reference.OFunction V arr)
    ∧ last (log (final Reference.handle Reference.complete))
      = Some (Ev (array vec) (Ok arr))
    ∧ outcome Reference.handle Reference.complete = Ok (Some arr)
    ∧ length arr = 81%nat
    ∧ Z.of_nat (length arr) = (nx + 1) * (ny + 1)
    ∧ (∀ d, is_Some (arr !! d) ↔ (d < 81)%nat)
    ∧ NoDup (Reference.coordinates 8 8 <$> seq 0 81)
    ∧ (∀ i j, (i ≤ 8)%nat → (j ≤ 8)%nat →
         ∃ d, (d < 81)%nat
              ∧ Reference.coordinates 8 8 d
                = [Qred (Z.of_nat i # 8); Qred (Z.of_nat j # 8); 0%Q])
    ∧ length Out_52 = length arr.
Proof.
  exists 0%nat, 1%nat, 9%nat, 10%nat, reference_output.
  rewrite reference_heap_eq, reference_final, reference_outcome.
  repeat apply conj.
  - by vm_compute.
  - by vm_compute.
  - by vm_compute.
  - by vm_compute.
  - by vm_compute.
  - by vm_compute.
  - by vm_compute.
  - reflexivity.
  - by vm_compute.
  - by vm_compute.
  - intros d. rewrite lookup_lt_is_Some.
    by replace (length reference_output) with 81%nat by (by vm_compute).
  - apply (bool_decide_unpack _). by vm_compute.
  - exact reference_nodes.
  - by vm_compute.
Qed.

(** C9: every entry of the computed array is in [1, 4], and both ends are
    attained.  On the library modelled from the spec, every entry of the
    array the run displays is at least 1 and at most 4; the entry of the
    degree of freedom at the corner (0, 0) is 1 and the entry of the one at
    the corner (1, 1) is 4.  These are the least and the greatest value of
    1 + x^2 + 2 y^2 on the unit square, attained at these corners; so no
    entry is outside the range of the exact solution.  The entries recorded
    in Out[52] are in [1, 4] too. *)
Theorem computed_values_in_range :
  ∃ (arr : list Q) (d0 d1 : nat),
    outcome Reference.handle Reference.complete = Ok (Some arr)
    ∧ Forall (λ v, 1 <= v <= 4)%Q arr
    ∧ Reference.coordinates 8 8 d0 = [0; 0; 0]%Q
    ∧ arr !! d0 = Some 1%Q
    ∧ Reference.coordinates 8 8 d1 = [1; 1; 0]%Q
    ∧ arr !! d1 = Some 4%Q
    ∧ (∀ x y, 0 <= x <= 1 → 0 <= y <= 1 → 1 <= u_Q x y <= 4)%Q
    ∧ (u_Q 0 0 == 1)%Q
    ∧ (u_Q 1 1 == 4)%Q
    ∧ Forall (λ v, 1 <= v <= 4)%Q Out_52.
Proof.
  exists reference_output, 0%nat, 80%nat.
  rewrite reference_outcome.
  repeat apply conj.
  - reflexivity.
  - apply Forall_Qle_range. by vm_compute.
  - by vm_compute.
  - by vm_compute.
  - by vm_compute.
  - by vm_compute.
  - exact u_Q_range.
  - by vm_compute.
  - by vm_compute.
  - apply Forall_Qle_range. by vm_compute.
Qed.

(** A cell that caught the exception of a call would not let it through:
    [propagates] tells the notebook from such a program. *)
Lemma try_except_swallows :
  ¬ propagates
      (try_except (extern Reference.handle (import_ petsc4py_PETSc))
                  (λ _, ret tt)).
Proof.
  intros Hp. destruct (Hp (fresh Reference.without_petsc)) as (new & Hlog & Hquiet).
  vm_compute in Hlog. subst new. vm_compute in Hquiet.
  apply Forall_inv in Hquiet. discriminate Hquiet.
Qed.

(** ** The theorems on every library, at the modelled library *)

Lemma errors_propagate_unchanged_witness :
  outcome Reference.handle Reference.without_petsc
    = Raise (External (Reference.ImportError petsc4py_PETSc))
  ∧ ∃ e, External (Reference.ImportError petsc4py_PETSc) = External e
         ∧ raised_last (log (final Reference.handle Reference.without_petsc)) e.
Proof.
  split; [by vm_compute |].
  apply (errors_propagate_unchanged Reference.handle Reference.without_petsc).
  by vm_compute.
Defined.


Lemma solver_is_direct_lu_witness :
  Some petsc_options
    ∈ event_options <$> log (final Reference.handle Reference.complete)
  ∧ Forall (λ ev, ∀ o, event_options ev = Some o → o = petsc_options)
      (log (final Reference.handle Reference.complete)).
Proof.
  split.
  - apply list_elem_of_lookup_2 with 19%nat. rewrite reference_final.
    by vm_compute.
  - apply (solver_is_direct_lu Reference.handle Reference.complete).
Defined.

Lemma source_term_is_minus_laplacian_witness :
  (∃ L, Some L
        ∈ event_linear_form <$> log (final Reference.handle Reference.complete))
  ∧ laplacian_at u_exact 0 0 (- IZR f_num)%R.
Proof.
  split.
  - eexists. apply list_elem_of_lookup_2 with 19%nat. rewrite reference_final.
    by vm_compute.
  - apply (source_term_is_minus_laplacian Reference.handle Reference.complete).
Defined.

Lemma boundary_condition_frame_witness :
  (∃ g, Some (g, Reference.facets_dofs 8 8 (Reference.exterior_facets 8 8))
        ∈ event_dirichletbc <$> log (final Reference.handle Reference.complete))
  ∧ constraints [1; 2; 3]%Q [0; 2]%nat = constraints [1; 5; 3]%Q [0; 2]%nat.
Proof.
  split.
  - eexists. apply list_elem_of_lookup_2 with 16%nat. rewrite reference_final.
    by vm_compute.
  - apply (boundary_condition_frame Reference.handle Reference.complete).
    intros d Hd. apply elem_of_cons in Hd as [-> | Hd]; [done |].
    apply list_elem_of_singleton in Hd as ->. done.
Defined.

(** * Running the cell of the solve again on the modelled library *)

(** The kernel after In[22] is run once more at the end of the reference
    run. *)
Definition rerun_kernel : @kernel nat Q Reference.err Reference.world :=
  Eval vm_compute in (In_22 Reference.handle reference_state.1).1.

Lemma reference_rerun :
  In_22 Reference.handle reference_state.1 = (rerun_kernel, Ok None).
Proof. vm_compute. reflexivity. Qed.

Lemma solve_cell_rerun_witness :
  In_22 Reference.handle reference_state.1 = (rerun_kernel, Ok None)
  ∧ ∃ a L b p sol,
      ns reference_state.1 !! "a" = Some (VForm a)
      ∧ ns reference_state.1 !! "L" = Some (VForm L)
      ∧ ns reference_state.1 !! "bc" = Some (VObj cls_DirichletBC b)
      ∧ log rerun_kernel
        = log reference_state.1
          ++ [Ev (LinearProblem a L [b] petsc_options) (Ok p);
              Ev (solve p) (Ok sol)]
      ∧ ns rerun_kernel
        = <["uh" := VObj cls_Function sol]>
            (<["problem" := VObj cls_LinearProblem p]> (ns reference_state.1))
      ∧ (None : @output Q) = None
      ∧ ∃ r rest,
          log (In_22 Reference.handle rerun_kernel).1
          = log rerun_kernel
            ++ Ev (LinearProblem a L [b] petsc_options) r :: rest.
Proof.
  split; [exact reference_rerun |].
  apply (solve_cell_rerun Reference.handle reference_state.1 rerun_kernel None).
  exact reference_rerun.
Defined.

(** Run again, the solve gives the same array. *)
Lemma reference_rerun_output :
  displayed (In_52 Reference.handle rerun_kernel).2 = reference_output.
Proof. by vm_compute. Qed.

Lemma names_bound_by_run_witness :
  outcome Reference.handle Reference.complete = Ok (Some reference_output)
  ∧ is_Some (ns (final Reference.handle Reference.complete) !! "uh")
  ∧ ns (final Reference.handle Reference.complete) !! "f_num"
    = Some (VInt (- 6)).
Proof.
  split; [exact reference_outcome |].
  destruct (names_bound_by_run Reference.handle Reference.complete)
    as [Hbound _].
  destruct (Hbound (Some reference_output) reference_outcome)
    as (Hnames & Hf & _).
  split; [| exact Hf].
  apply Hnames. simpl. rewrite !elem_of_cons. tauto.
Defined.

(** * The boundary function as a Python function

    The operators of a Python number type may raise: on floats [**] raises
    OverflowError when the result is out of range, and other number types
    raise from [+] and [*] as well.  A number type is given by its
    operations, each of which returns a number or raises ([None]); an
    integer literal is an operand of any number type. *)

Inductive lambda_exc : Type :=
| IndexError            (* [x[i]], [i] out of range *)
| ArithmeticError.      (* raised by an operator *)

Record py_arith (T : Type) : Type := {
  py_int : Z → T;
  py_add : T → T → option T;
  py_mul : T → T → option T;
  py_pow : T → nat → option T
}.
Arguments py_int {T}.
Arguments py_add {T}.
Arguments py_mul {T}.
Arguments py_pow {T}.

Definition operate {T : Type} (r : option T) : result lambda_exc T :=
  match r with
  | Some v => Ok v
  | None => Raise ArithmeticError
  end.

(** Python evaluates the left operand, then the right one, then applies the
    operator; the first exception raised ends the evaluation. *)
Fixpoint eval_py {T : Type} (ar : py_arith T) (x : list T) (e : pyexpr)
    : result lambda_exc T :=
  match e with
  | Num z => Ok (py_int ar z)
  | Coord i =>
      match nth_error x i with
      | Some a => Ok a
      | None => Raise IndexError
      end
  | Add e1 e2 =>
      match eval_py ar x e1 with
      | Ok a =>
          match eval_py ar x e2 with
          | Ok b => operate (py_add ar a b)
          | Raise r => Raise r
          end
      | Raise r => Raise r
      end
  | Mul e1 e2 =>
      match eval_py ar x e1 with
      | Ok a =>
          match eval_py ar x e2 with
          | Ok b => operate (py_mul ar a b)
          | Raise r => Raise r
          end
      | Raise r => Raise r
      end
  | Pow e1 n =>
      match eval_py ar x e1 with
      | Ok a => operate (py_pow ar a n)
      | Raise r => Raise r
      end
  end.

(** A number type whose operators never raise. *)
Definition total {T : Type} (ar : arith T) : py_arith T :=
  {| py_int := of_int ar;
     py_add := λ a b, Some (plus ar a b);
     py_mul := λ a b, Some (times ar a b);
     py_pow := λ a n, Some (power ar a n) |}.

(** Integers of magnitude at most [M]: an operator whose result is larger
    raises, as [**] of floats does. *)
Definition within (M z : Z) : option Z :=
  if decide (Z.abs z ≤ M) then Some z else None.

Definition bounded (M : Z) : py_arith Z :=
  {| py_int := λ z, z;
     py_add := λ a b, within M (a + b);
     py_mul := λ a b, within M (a * b);
     py_pow := λ a n, within M (a ^ Z.of_nat n) |}.

(** With operators that never raise, [eval_py] is [eval]. *)
Lemma eval_py_total {T : Type} (ar : arith T) (x : list T) (e : pyexpr) :
  eval_py (total ar) x e
  = match eval ar x e with
    | Some v => Ok v
    | None => Raise IndexError
    end.
Proof.
  induction e as [z | i | e1 IH1 e2 IH2 | e1 IH1 e2 IH2 | e1 IH1 n]; simpl.
  - done.
  - by destruct (nth_error x i).
  - rewrite IH1, IH2. by destruct (eval ar x e1), (eval ar x e2).
  - rewrite IH1, IH2. by destruct (eval ar x e1), (eval ar x e2).
  - rewrite IH1. by destruct (eval ar x e1).
Qed.

(** X9: the boundary function reads the first two coordinates only.  Over
    any number type, whose operators may raise,
    [lambda x: 1 + x[0]**2 + 2 * x[1]**2] raises IndexError on an empty [x],
    raises on an [x] of one entry, never raises IndexError on an [x] of two
    entries or more, and returns a value only on such an [x]; what it
    returns or raises depends on the first two entries of [x] only, so the
    third coordinate DOLFINx passes is ignored.  When no operator raises it
    returns a value exactly on the [x] of two entries or more.  An operator
    that raises makes it raise on an [x] of three entries, and on an [x] of
    one entry before [x[1]] is read. *)
Theorem boundary_function_reads_two_coordinates {T : Type} (ar : py_arith T)
    (x : list T) :
  (length x = 0%nat → eval_py ar x u_D = Raise IndexError)
  ∧ (length x = 1%nat → ∃ r, eval_py ar x u_D = Raise r)
  ∧ ((2 ≤ length x)%nat → eval_py ar x u_D ≠ Raise IndexError)
  ∧ (∀ v, eval_py ar x u_D = Ok v → (2 ≤ length x)%nat)
  ∧ (∀ x', take 2 x = take 2 x' → eval_py ar x u_D = eval_py ar x' u_D)
  ∧ (∀ ar' : arith T,
       ar = total ar' →
       (2 ≤ length x)%nat
       ↔ ∃ v, eval_py ar x u_D = Ok v ∧ eval ar' x u_D = Some v)
  ∧ eval_py (bounded 1000) [100; 0; 0] u_D = Raise ArithmeticError
  ∧ eval_py (bounded 1000) [100] u_D = Raise ArithmeticError.
Proof.
  repeat apply conj.
  - destruct x; [done | discriminate].
  - destruct x as [| x0 [| x1 rest]]; try discriminate. intros _. simpl.
    destruct (py_pow ar x0 2) as [p|]; simpl; [| by eexists].
    destruct (py_add ar (py_int ar 1) p); simpl; by eexists.
  - destruct x as [| x0 [| x1 rest]]; simpl; [lia | lia |]. intros _.
    destruct (py_pow ar x0 2) as [p|]; simpl; [| done].
    destruct (py_add ar (py_int ar 1) p) as [s|]; simpl; [| done].
    destruct (py_pow ar x1 2) as [q|]; simpl; [| done].
    destruct (py_mul ar (py_int ar 2) q) as [m|]; simpl; [| done].
    by destruct (py_add ar s m).
  - intros v. destruct x as [| x0 [| x1 rest]]; simpl; [done | | lia].
    destruct (py_pow ar x0 2) as [p|]; simpl; [| done].
    by destruct (py_add ar (py_int ar 1) p).
  - intros x' Hx'.
    destruct x as [| x0 [| x1 rest]], x' as [| x0' [| x1' rest']];
      simplify_eq/=; done.
  - intros ar' ->. rewrite eval_py_total.
    destruct x as [| x0 [| x1 rest]]; simpl.
    + split; [lia | by intros (v & Hv & _)].
    + split; [lia | by intros (v & Hv & _)].
    + split; [by eexists | lia].
  - by vm_compute.
  - by vm_compute.
Qed.
